(** * lymph: the multi-cause circuit breaker and the connection liveness monitor

    A shallow embedding of [lymph/core/circuitbreaker.py] and
    [lymph/core/connection.py], and the properties of the specification that
    are about them.

    Conventions of the embedding.
    - [time.monotonic()] returns a float number of seconds.  Clock values are
      exact rationals ([Q]); the only arithmetic the code does on them is
      subtracting a constant and comparing.  Inside one call every read of the
      clock gives the same value [now] (the calls do no I/O and the test suite
      patches the clock with a constant function).
    - A tally is the two-element Python list [[count, time]]; [time] is
      [None] or a clock value.  Every tally is a list of its own (created by
      [add_method] or [__init__]), so no two entries of the maps alias and the
      in-place assignments are modelled as updates of the map entry.
    - A Python [dict] is an association list in iteration order; assignment
      to a present key keeps its position and a new key goes last (insertion
      order, the order of Python 3.7 and later; earlier interpreters iterate
      in an order fixed by the hashes of the keys, and what is stated below
      for Python 2 is about dicts of one key or is relative to the order of
      the list).
    - Exceptions are values of [exn]; a method that mutates the breaker
      returns the breaker it leaves behind together with its result, also
      when it raises.
    - Two points of the code depend on the interpreter: the comparison
      [None <= float] (an ordering in Python 2, where [None] is below every
      number; a [TypeError] in Python 3) and [dict.keys()] (a list, hence a
      snapshot, in Python 2; a live view whose iterator raises [RuntimeError]
      once the dict changed size in Python 3).  The embedding takes the
      interpreter as a parameter and models both. *)

From Stdlib Require Import ZArith QArith Lqa Lia List String Bool.
From Stdlib Require Import Permutation Sorted.
Import ListNotations.

Local Open Scope string_scope.
Local Open Scope Z_scope.

(** ** Python values shared by both modules *)

Inductive interpreter : Type := Python2 | Python3.

(** The exceptions the two modules raise or run into.  [CircuitBreakerOpen]
    and [NotConnected] are classes of [lymph.exceptions]; an instance is the
    message it was made with. *)
Inductive exn : Type :=
| CircuitBreakerOpen (msg : string)
| NotConnected (msg : string)
| KeyError (key : string)
| IndexError
| TypeError
| RuntimeError.

Inductive result (A : Type) : Type :=
| Ok (a : A)
| Raise (e : exn).
Arguments Ok {A} a.
Arguments Raise {A} e.

Definition rbind {A B : Type} (c : result A) (k : A -> result B) : result B :=
  match c with
  | Ok a => k a
  | Raise e => Raise e
  end.

Declare Scope result_scope.
Delimit Scope result_scope with result.
Notation "x <~ c ;; k" := (rbind c (fun x => k))
  (at level 61, c at next level, right associativity) : result_scope.

(** [a < b] on clock values, as a boolean. *)
Definition Qlt_bool (a b : Q) : bool := negb (Qle_bool b a).

(** ** dict: association lists in iteration order *)

Module Dict.
Section Dict.
Context {V : Type}.

Definition t : Type := list (string * V).

(** [d.get(k)] *)
Fixpoint get (k : string) (d : t) : option V :=
  match d with
  | [] => None
  | (k', v) :: rest => if String.eqb k k' then Some v else get k rest
  end.

(** [k in d] *)
Definition contains (k : string) (d : t) : bool :=
  match get k d with
  | Some _ => true
  | None => false
  end.

(** [d[k]], raising [KeyError] *)
Definition getitem (k : string) (d : t) : result V :=
  match get k d with
  | Some v => Ok v
  | None => Raise (KeyError k)
  end.

(** [d[k] = v]: a present key keeps its place, a new one goes last *)
Fixpoint set (k : string) (v : V) (d : t) : t :=
  match d with
  | [] => [(k, v)]
  | (k', v') :: rest =>
      if String.eqb k k' then (k', v) :: rest else (k', v') :: set k v rest
  end.

(** [d.pop(k)] for a present key (the code pops only keys it just read) *)
Fixpoint pop (k : string) (d : t) : t :=
  match d with
  | [] => []
  | (k', v') :: rest =>
      if String.eqb k k' then rest else (k', v') :: pop k rest
  end.

(** [d.keys()], in iteration order *)
Definition keys (d : t) : list string := map fst d.

(** [not d] *)
Definition is_empty (d : t) : bool :=
  match d with
  | [] => true
  | _ :: _ => false
  end.
End Dict.
Arguments t V : clear implicits.
End Dict.

(** ** lymph/core/circuitbreaker.py *)

Module CB.

(** The list [[count, time]]. *)
Record tally : Type := Tally { count : Z; last_time : option Q }.

(** [[0, None]] *)
Definition fresh : tally := Tally 0 None.

Definition MAXIMUM_ERRORS_BEFORE_OPEN : Z := 7.
Definition COOLDOWN_SECONDS : Q := 60.
Definition OVERPROVISIONING_FACTOR : nat := 2.
Definition CLEANUP_INTERVAL : Q := 3600.

Record MultiCauseCircuitBreaker : Type := Breaker {
  global_fail : tally;
  endpoint_fail : Dict.t tally;
  method_fail : Dict.t tally;
  method_instance_fail : Dict.t (Dict.t tally);
  adjust_endpoint_rating : Dict.t Z -> Dict.t Z;
  last_cleanup : Q
}.

Definition with_global_fail (x : tally) (self : MultiCauseCircuitBreaker) :=
  Breaker x (endpoint_fail self) (method_fail self) (method_instance_fail self)
          (adjust_endpoint_rating self) (last_cleanup self).
Definition with_endpoint_fail (x : Dict.t tally) (self : MultiCauseCircuitBreaker) :=
  Breaker (global_fail self) x (method_fail self) (method_instance_fail self)
          (adjust_endpoint_rating self) (last_cleanup self).
Definition with_method_fail (x : Dict.t tally) (self : MultiCauseCircuitBreaker) :=
  Breaker (global_fail self) (endpoint_fail self) x (method_instance_fail self)
          (adjust_endpoint_rating self) (last_cleanup self).
Definition with_method_instance_fail (x : Dict.t (Dict.t tally))
           (self : MultiCauseCircuitBreaker) :=
  Breaker (global_fail self) (endpoint_fail self) (method_fail self) x
          (adjust_endpoint_rating self) (last_cleanup self).
Definition with_last_cleanup (x : Q) (self : MultiCauseCircuitBreaker) :=
  Breaker (global_fail self) (endpoint_fail self) (method_fail self)
          (method_instance_fail self) (adjust_endpoint_rating self) x.

(** Methods of the breaker: the breaker goes in, the breaker as the call
    leaves it comes out with the value returned or the exception raised. *)
Definition M (A : Type) : Type :=
  MultiCauseCircuitBreaker -> MultiCauseCircuitBreaker * result A.

Definition ret {A : Type} (a : A) : M A := fun self => (self, Ok a).
Definition raise {A : Type} (e : exn) : M A := fun self => (self, Raise e).
Definition bind {A B : Type} (c : M A) (k : A -> M B) : M B :=
  fun self =>
    match c self with
    | (self', Ok a) => k a self'
    | (self', Raise e) => (self', Raise e)
    end.
(** A computation that reads the breaker and changes nothing. *)
Definition reading {A : Type} (f : MultiCauseCircuitBreaker -> result A) : M A :=
  fun self => (self, f self).
Definition modify (f : MultiCauseCircuitBreaker -> MultiCauseCircuitBreaker) : M unit :=
  fun self => (f self, Ok tt).

Declare Scope breaker_scope.
Delimit Scope breaker_scope with breaker.
Notation "x <- c ;; k" := (bind c (fun x => k))
  (at level 61, c at next level, right associativity) : breaker_scope.
Notation "c ;; k" := (bind c (fun _ => k))
  (at level 61, right associativity) : breaker_scope.

Local Open Scope breaker_scope.

(** [__init__(adjust_endpoint_rating)], the clock reading [now];
    [_adjust_endpoint_rating] is the identity. *)
Definition _adjust_endpoint_rating (ratings : Dict.t Z) : Dict.t Z := ratings.

Definition init (adjust : option (Dict.t Z -> Dict.t Z)) (now : Q)
  : MultiCauseCircuitBreaker :=
  Breaker fresh [] [] []
          (match adjust with Some f => f | None => _adjust_endpoint_rating end)
          now.

(** The assignments [tally[0] = c], [tally[0] += 1], [tally[1] = x]. *)
Definition set_count (c : Z) (s : tally) : tally := Tally c (last_time s).
Definition add_count (s : tally) : tally := Tally (count s + 1) (last_time s).
Definition set_time (x : option Q) (s : tally) : tally := Tally (count s) x.

(** [self.global_fail[i] = ...] *)
Definition on_global (f : tally -> tally) : M unit :=
  modify (fun self => with_global_fail (f (global_fail self)) self).

(** [self.endpoint_fail[endpoint][i] = ...] *)
Definition on_endpoint (endpoint : string) (f : tally -> tally) : M unit :=
  fun self =>
    match Dict.get endpoint (endpoint_fail self) with
    | Some s =>
        (with_endpoint_fail (Dict.set endpoint (f s) (endpoint_fail self)) self, Ok tt)
    | None => (self, Raise (KeyError endpoint))
    end.

(** [self.method_fail[method][i] = ...] *)
Definition on_method (method : string) (f : tally -> tally) : M unit :=
  fun self =>
    match Dict.get method (method_fail self) with
    | Some s =>
        (with_method_fail (Dict.set method (f s) (method_fail self)) self, Ok tt)
    | None => (self, Raise (KeyError method))
    end.

(** [self.method_instance_fail[method][endpoint][i] = ...] *)
Definition on_instance (method endpoint : string) (f : tally -> tally) : M unit :=
  fun self =>
    match Dict.get method (method_instance_fail self) with
    | None => (self, Raise (KeyError method))
    | Some inst =>
        match Dict.get endpoint inst with
        | None => (self, Raise (KeyError endpoint))
        | Some s =>
            (with_method_instance_fail
               (Dict.set method (Dict.set endpoint (f s) inst)
                         (method_instance_fail self)) self, Ok tt)
        end
    end.

(** [self.method_instance_fail[method].pop(endpoint)] *)
Definition on_instances_pop (method endpoint : string) : M unit :=
  fun self =>
    match Dict.get method (method_instance_fail self) with
    | None => (self, Raise (KeyError method))
    | Some inst =>
        (with_method_instance_fail
           (Dict.set method (Dict.pop endpoint inst) (method_instance_fail self))
           self, Ok tt)
    end.

Definition add_method (endpoint method : string) : M unit :=
  (fun self =>
     if negb (Dict.contains endpoint (endpoint_fail self))
     then (with_endpoint_fail (Dict.set endpoint fresh (endpoint_fail self)) self, Ok tt)
     else (self, Ok tt)) ;;
  (fun self =>
     if negb (Dict.contains method (method_fail self))
     then (with_method_instance_fail
             (Dict.set method [] (method_instance_fail self))
             (with_method_fail (Dict.set method fresh (method_fail self)) self), Ok tt)
     else (self, Ok tt)) ;;
  (fun self =>
     match Dict.get method (method_instance_fail self) with
     | None => (self, Raise (KeyError method))
     | Some inst =>
         if negb (Dict.contains endpoint inst)
         then (with_method_instance_fail
                 (Dict.set method (Dict.set endpoint fresh inst)
                           (method_instance_fail self)) self, Ok tt)
         else (self, Ok tt)
     end).

Definition observe_failure (now : Q) (endpoint method : string) : M unit :=
  on_global add_count ;;
  on_global (set_time (Some now)) ;;
  on_endpoint endpoint add_count ;;
  on_endpoint endpoint (set_time (Some now)) ;;
  on_method method add_count ;;
  on_method method (set_time (Some now)) ;;
  on_instance method endpoint add_count ;;
  on_instance method endpoint (set_time (Some now)).

Definition observe_success (endpoint method : string) : M unit :=
  on_global (set_count 0) ;;
  on_global (set_time None) ;;
  on_endpoint endpoint (set_count 0) ;;
  on_endpoint endpoint (set_time None) ;;
  on_method method (set_count 0) ;;
  on_method method (set_time None) ;;
  on_instance method endpoint (set_count 0) ;;
  on_instance method endpoint (set_time None).

(** [apply_ignore_before(status)], the closure of [select_endpoint] over
    [ignore_before].  With [status[1]] unset the comparison is
    [None <= ignore_before]. *)
Definition apply_ignore_before (py : interpreter) (ignore_before : Q)
           (status : tally) : result Z :=
  match last_time status with
  | Some t => if Qle_bool t ignore_before then Ok 0 else Ok (count status)
  | None =>
      match py with
      | Python2 => Ok 0
      | Python3 => Raise TypeError
      end
  end.

(** [sort_key(endpoint_key)]; the arguments of [max] are evaluated left to
    right. *)
Definition sort_key (py : interpreter) (ignore_before : Q) (method : string)
           (self : MultiCauseCircuitBreaker) (endpoint_key : string) : result Z :=
  (s <~ Dict.getitem endpoint_key (endpoint_fail self) ;;
   a <~ apply_ignore_before py ignore_before s ;;
   inst <~ Dict.getitem method (method_instance_fail self) ;;
   s' <~ Dict.getitem endpoint_key inst ;;
   b <~ apply_ignore_before py ignore_before s' ;;
   Ok (Z.max a b))%result.

(** [{ endpoint: value(endpoint) for endpoint in endpoints }] *)
Fixpoint dict_comprehension (value : string -> result Z) (endpoints : list string)
         (acc : Dict.t Z) : result (Dict.t Z) :=
  match endpoints with
  | [] => Ok acc
  | endpoint :: rest =>
      (v <~ value endpoint ;;
       dict_comprehension value rest (Dict.set endpoint v acc))%result
  end.

(** [ratings.get], used as sort key on the keys of [ratings] only. *)
Definition ratings_get (ratings : Dict.t Z) (k : string) : Z :=
  match Dict.get k ratings with
  | Some v => v
  | None => 0
  end.

(** [sorted(l, key=key)]: Python's sort is stable, and a stable sort has one
    possible result; insertion from the right computes it. *)
Fixpoint insert_sorted (key : string -> Z) (x : string) (l : list string)
  : list string :=
  match l with
  | [] => [x]
  | y :: rest =>
      if key x <=? key y then x :: y :: rest else y :: insert_sorted key x rest
  end.

Definition sorted (l : list string) (key : string -> Z) : list string :=
  fold_right (insert_sorted key) [] l.

(** [random.choice(l)]; [rnd] is the outcome of the draw. *)
Definition random_choice (rnd : nat) (l : list string) : result string :=
  match nth_error l (rnd mod List.length l)%nat with
  | Some x => Ok x
  | None => Raise IndexError
  end.

(** [for k in d.keys(): body(k)].  [ks] are the keys when the loop starts and
    [n] their number; [size] reads the size the dict has now.  In Python 3 the
    iterator of the view raises as soon as it is advanced after the dict
    changed size; in Python 2 the loop runs over the list [ks]. *)
Fixpoint for_keys (py : interpreter) (size : MultiCauseCircuitBreaker -> nat)
         (n : nat) (ks : list string) (body : string -> M unit) : M unit :=
  fun self =>
    match py, Nat.eqb (size self) n with
    | Python3, false => (self, Raise RuntimeError)
    | _, _ =>
        match ks with
        | [] => (self, Ok tt)
        | k :: rest => (body k ;; for_keys py size n rest body) self
        end
    end.

(** [x or 0] for a time [x] *)
Definition or0 (x : option Q) : Q :=
  match x with
  | Some t => t
  | None => 0%Q
  end.

(** [len(self.method_instance_fail[method])] of the dict object the inner
    loop iterates; once the method is popped that object is the empty dict. *)
Definition instance_size (method : string) (self : MultiCauseCircuitBreaker) : nat :=
  match Dict.get method (method_instance_fail self) with
  | Some inst => List.length inst
  | None => 0%nat
  end.

Definition _cleanup (py : interpreter) (now : Q) : M unit :=
  let cleanup_before := (now - CLEANUP_INTERVAL)%Q in
  (fun self =>
     for_keys py (fun s => List.length (endpoint_fail s)) (List.length (endpoint_fail self))
       (Dict.keys (endpoint_fail self))
       (fun endpoint =>
          s <- reading (fun self => Dict.getitem endpoint (endpoint_fail self)) ;;
          if Qlt_bool (or0 (last_time s)) cleanup_before
          then modify (fun self =>
                 with_endpoint_fail (Dict.pop endpoint (endpoint_fail self)) self)
          else ret tt) self) ;;
  (fun self =>
     for_keys py (fun s => List.length (method_fail s)) (List.length (method_fail self))
       (Dict.keys (method_fail self))
       (fun method =>
          s <- reading (fun self => Dict.getitem method (method_fail self)) ;;
          (if Qlt_bool (or0 (last_time s)) cleanup_before
           then modify (fun self =>
                  with_method_fail (Dict.pop method (method_fail self)) self)
           else ret tt) ;;
          inst <- reading (fun self => Dict.getitem method (method_instance_fail self)) ;;
          for_keys py (instance_size method) (List.length inst) (Dict.keys inst)
            (fun endpoint =>
               s <- reading (fun self =>
                      (inst <~ Dict.getitem method (method_instance_fail self) ;;
                       Dict.getitem endpoint inst)%result) ;;
               if Qlt_bool (or0 (last_time s)) cleanup_before
               then
                 on_instances_pop method endpoint ;;
                 inst <- reading (fun self =>
                           Dict.getitem method (method_instance_fail self)) ;;
                 if Dict.is_empty inst
                 then modify (fun self =>
                        with_method_instance_fail
                          (Dict.pop method (method_instance_fail self)) self)
                 else ret tt
               else ret tt)) self) ;;
  modify (with_last_cleanup now).

(** Lines 120-128 of [select_endpoint]: the candidates, their ratings and the
    adjuster applied to them. *)
Definition rate_endpoints (py : interpreter) (ignore_before : Q) (method : string)
           (endpoints : option (list string)) (self : MultiCauseCircuitBreaker)
  : result (Dict.t Z) :=
  (endpoints <~ match endpoints with
                | Some (e :: rest) => Ok (e :: rest)
                | _ => inst <~ Dict.getitem method (method_instance_fail self) ;;
                       Ok (Dict.keys inst)
                end ;;
   ratings <~ dict_comprehension (sort_key py ignore_before method self)
                                 endpoints [] ;;
   Ok (adjust_endpoint_rating self ratings))%result.

(** Lines 133-134: the sorted endpoints and the slice kept of them. *)
Definition shortlist (ratings : Dict.t Z) : list string :=
  let endpoints := sorted (Dict.keys ratings) (ratings_get ratings) in
  firstn (1 + (List.length endpoints - 1) / OVERPROVISIONING_FACTOR)%nat endpoints.

(** Lines 104-142 of [select_endpoint], which only read the breaker. *)
Definition choose_endpoint (py : interpreter) (now : Q) (rnd : nat)
           (method : string) (endpoints : option (list string))
           (self : MultiCauseCircuitBreaker) : result string :=
  let ignore_before := (now - COOLDOWN_SECONDS)%Q in
  let apply_ignore_before := apply_ignore_before py ignore_before in
  (g <~ apply_ignore_before (global_fail self) ;;
   if g >? MAXIMUM_ERRORS_BEFORE_OPEN
   then Raise (CircuitBreakerOpen "global failure rate too high") else
   if negb (Dict.contains method (method_fail self))
   then Raise (NotConnected ("no endpoints configured for method: " ++ method)) else
   s <~ Dict.getitem method (method_fail self) ;;
   m <~ apply_ignore_before s ;;
   if m >? MAXIMUM_ERRORS_BEFORE_OPEN
   then Raise (CircuitBreakerOpen
                 ("method failure rate too high for method " ++ method)) else
   ratings <~ rate_endpoints py ignore_before method endpoints self ;;
   if Dict.is_empty ratings
   then Raise (NotConnected ("no endpoints available for method: " ++ method)) else
   endpoint <~ random_choice rnd (shortlist ratings) ;;
   s <~ Dict.getitem endpoint (endpoint_fail self) ;;
   e <~ apply_ignore_before s ;;
   if e >? MAXIMUM_ERRORS_BEFORE_OPEN
   then Raise (CircuitBreakerOpen
                 ("endpoint failure rate too high for endpoint " ++ endpoint)) else
   inst <~ Dict.getitem method (method_instance_fail self) ;;
   s <~ Dict.getitem endpoint inst ;;
   i <~ apply_ignore_before s ;;
   if i >? MAXIMUM_ERRORS_BEFORE_OPEN
   then Raise (CircuitBreakerOpen
                 ("method instance failure rate too high for (endpoint, method) = ("
                    ++ endpoint ++ ", " ++ method ++ ")")) else
   Ok endpoint)%result.

(** [select_endpoint(method, endpoints)]: lines 100-102, the sweep when it is
    due, then the rest on the breaker the sweep left. *)
Definition select_endpoint (py : interpreter) (now : Q) (rnd : nat)
           (method : string) (endpoints : option (list string)) : M string :=
  (fun self =>
     if Qlt_bool (last_cleanup self) (now - CLEANUP_INTERVAL)
     then _cleanup py now self
     else ret tt self) ;;
  reading (choose_endpoint py now rnd method endpoints).

End CB.

(** ** lymph/core/connection.py *)

Module Conn.

Inductive status_t : Type := UNKNOWN | RESPONSIVE | UNRESPONSIVE | CLOSED | IDLE.

Definition status_eqb (a b : status_t) : bool :=
  match a, b with
  | UNKNOWN, UNKNOWN | RESPONSIVE, RESPONSIVE | UNRESPONSIVE, UNRESPONSIVE
  | CLOSED, CLOSED | IDLE, IDLE => true
  | _, _ => false
  end.

(** What the connection asks of a message. *)
Record message : Type := Message { is_idle_chatter : bool }.

(** The attributes of a [Connection] that [set_status], [update_status],
    [close], [on_recv], [on_send] and [is_alive] read or write.  The server
    is outside the module: [server_disconnects] lists the endpoints handed to
    [self.server.disconnect], latest first.  The sample window, the pid and
    the two greenlets are touched by none of these methods. *)
Record Connection : Type := Build {
  server_disconnects : list string;
  endpoint : string;
  timeout : Q;
  heartbeat_interval : Q;
  idle_timeout : Q;
  unresponsive_disconnect : Q;
  idle_disconnect : Q;
  last_seen : Q;
  last_message : Q;
  created_at : Q;
  explicit_heartbeat_count : Z;
  status : status_t;
  last_status_change : Q;
  received_message_count : Z;
  sent_message_count : Z
}.

Definition with_server_disconnects (x : list string) (self : Connection) :=
  Build x (endpoint self) (timeout self) (heartbeat_interval self)
        (idle_timeout self) (unresponsive_disconnect self) (idle_disconnect self)
        (last_seen self) (last_message self) (created_at self)
        (explicit_heartbeat_count self) (status self) (last_status_change self)
        (received_message_count self) (sent_message_count self).
Definition with_last_seen (x : Q) (self : Connection) :=
  Build (server_disconnects self) (endpoint self) (timeout self)
        (heartbeat_interval self) (idle_timeout self) (unresponsive_disconnect self)
        (idle_disconnect self) x (last_message self) (created_at self)
        (explicit_heartbeat_count self) (status self) (last_status_change self)
        (received_message_count self) (sent_message_count self).
Definition with_last_message (x : Q) (self : Connection) :=
  Build (server_disconnects self) (endpoint self) (timeout self)
        (heartbeat_interval self) (idle_timeout self) (unresponsive_disconnect self)
        (idle_disconnect self) (last_seen self) x (created_at self)
        (explicit_heartbeat_count self) (status self) (last_status_change self)
        (received_message_count self) (sent_message_count self).
Definition with_status (x : status_t) (self : Connection) :=
  Build (server_disconnects self) (endpoint self) (timeout self)
        (heartbeat_interval self) (idle_timeout self) (unresponsive_disconnect self)
        (idle_disconnect self) (last_seen self) (last_message self) (created_at self)
        (explicit_heartbeat_count self) x (last_status_change self)
        (received_message_count self) (sent_message_count self).
Definition with_last_status_change (x : Q) (self : Connection) :=
  Build (server_disconnects self) (endpoint self) (timeout self)
        (heartbeat_interval self) (idle_timeout self) (unresponsive_disconnect self)
        (idle_disconnect self) (last_seen self) (last_message self) (created_at self)
        (explicit_heartbeat_count self) (status self) x
        (received_message_count self) (sent_message_count self).
Definition with_received_message_count (x : Z) (self : Connection) :=
  Build (server_disconnects self) (endpoint self) (timeout self)
        (heartbeat_interval self) (idle_timeout self) (unresponsive_disconnect self)
        (idle_disconnect self) (last_seen self) (last_message self) (created_at self)
        (explicit_heartbeat_count self) (status self) (last_status_change self)
        x (sent_message_count self).
Definition with_sent_message_count (x : Z) (self : Connection) :=
  Build (server_disconnects self) (endpoint self) (timeout self)
        (heartbeat_interval self) (idle_timeout self) (unresponsive_disconnect self)
        (idle_disconnect self) (last_seen self) (last_message self) (created_at self)
        (explicit_heartbeat_count self) (status self) (last_status_change self)
        (received_message_count self) x.

(** [__init__] with its default thresholds, on a server that was asked for
    no disconnect yet. *)
Definition init (endpoint : string) (now : Q) : Connection :=
  Build [] endpoint 1 1 10 30 60 0 now now 0 UNKNOWN now 0 0.

(** [a >= b] on numbers *)
Definition Qge_bool (a b : Q) : bool := Qle_bool b a.

Definition set_status (now : Q) (s : status_t) (self : Connection) : Connection :=
  let self :=
    if negb (status_eqb s (status self))
    then with_last_status_change now self
    else self in
  with_status s self.

Definition close (self : Connection) : Connection :=
  if status_eqb (status self) CLOSED then self
  else
    let self := with_status CLOSED self in
    with_server_disconnects (endpoint self :: server_disconnects self) self.

Definition update_status (now : Q) (self : Connection) : Connection :=
  if negb (Qeq_bool (last_seen self) 0) then
    if status_eqb (status self) UNRESPONSIVE
       && Qge_bool (now - last_status_change self) (unresponsive_disconnect self)
    then close self
    else if Qge_bool (now - last_seen self) (timeout self)
    then set_status now UNRESPONSIVE self
    else if status_eqb (status self) IDLE
            && Qge_bool (now - last_status_change self) (idle_disconnect self)
    then close self
    else if Qge_bool (now - last_message self) (idle_timeout self)
    then set_status now IDLE self
    else set_status now RESPONSIVE self
  else self.

(** [live_check_loop], the clock reading [now] at each of the iterations in
    [ticks]; [log_stats] only reads and [gevent.sleep] only waits. *)
Fixpoint live_check_loop (ticks : list Q) (self : Connection) : Connection :=
  match ticks with
  | [] => self
  | now :: rest =>
      if negb (status_eqb (status self) CLOSED)
      then live_check_loop rest (update_status now self)
      else self
  end.

Definition on_recv (now : Q) (msg : message) (self : Connection) : Connection :=
  let self := with_last_seen now self in
  let self := if negb (is_idle_chatter msg) then with_last_message now self else self in
  with_received_message_count (received_message_count self + 1) self.

Definition on_send (now : Q) (msg : message) (self : Connection) : Connection :=
  let self := if negb (is_idle_chatter msg) then with_last_message now self else self in
  with_sent_message_count (sent_message_count self + 1) self.


End Conn.

(** ** Vocabulary of the statements *)

Import CB.
Local Open Scope breaker_scope.

(** The tally of a (method, endpoint) pair, when there is one. *)
Definition instance_tally (method endpoint : string)
           (self : MultiCauseCircuitBreaker) : option tally :=
  match Dict.get method (method_instance_fail self) with
  | Some inst => Dict.get endpoint inst
  | None => None
  end.

(** [add_method(endpoint, method)] was called and cleanup did not drop any of
    the three entries since. *)
Definition registered (endpoint method : string)
           (self : MultiCauseCircuitBreaker) : bool :=
  Dict.contains endpoint (endpoint_fail self)
  && Dict.contains method (method_fail self)
  && match instance_tally method endpoint self with
     | Some _ => true
     | None => false
     end.

(** The effective count of a tally at [now]: the value [select_endpoint]
    compares with [MAXIMUM_ERRORS_BEFORE_OPEN]. *)
Definition effective (py : interpreter) (now : Q) (s : tally) : result Z :=
  apply_ignore_before py (now - COOLDOWN_SECONDS) s.

(** [observe_failure(endpoint, method)] once at each of the clock values
    [times], in that order. *)
Fixpoint observe_failures (times : list Q) (endpoint method : string) : M unit :=
  match times with
  | [] => ret tt
  | now :: rest =>
      observe_failure now endpoint method ;; observe_failures rest endpoint method
  end.

(** A breaker made at [t0] on which the one pair (endpoint, method) was
    registered and then failed at [times]. *)
Definition one_pair (t0 : Q) (endpoint method : string) (times : list Q)
  : MultiCauseCircuitBreaker :=
  fst ((add_method endpoint method ;; observe_failures times endpoint method)
         (init None t0)).

(** The breaker with the one pair (endpoint, method) whose four tallies all
    read [[c, x]]. *)
Definition pair_state (endpoint method : string) (c : Z) (x : option Q)
           (cleaned : Q) : MultiCauseCircuitBreaker :=
  Breaker (Tally c x) [(endpoint, Tally c x)] [(method, Tally c x)]
          [(method, [(endpoint, Tally c x)])] _adjust_endpoint_rating cleaned.

(** The breaker of [test_closing]: ten failures of (A, a), then a success. *)
Definition after_success : MultiCauseCircuitBreaker :=
  fst (observe_success "A" "a" (one_pair 0 "A" "a" (repeat 1%Q 10))).

(** The breaker of [test_cleanup]: (A, 1) registered, one failure. *)
Definition before_sweep : MultiCauseCircuitBreaker := one_pair 0 "A" "1" [0%Q].

(** Two endpoints of one method, registered B first, with equal ratings. *)
Definition two_tied : MultiCauseCircuitBreaker :=
  fst ((add_method "B" "a" ;; add_method "A" "a" ;;
        observe_failure 0 "B" "a" ;; observe_failure 0 "A" "a") (init None 0)).

(** The specification's order of step 9: ascending by rating, ties broken by
    the natural order of the endpoint identifier. *)
Definition spec_before (key : string -> Z) (x y : string) : bool :=
  (key x <? key y) || ((key x =? key y) && String.leb x y).

Fixpoint spec_insert (key : string -> Z) (x : string) (l : list string)
  : list string :=
  match l with
  | [] => [x]
  | y :: rest =>
      if spec_before key x y then x :: y :: rest else y :: spec_insert key x rest
  end.

Definition spec_sorted (l : list string) (key : string -> Z) : list string :=
  fold_right (spec_insert key) [] l.

Definition spec_shortlist (ratings : Dict.t Z) : list string :=
  let endpoints := spec_sorted (Dict.keys ratings) (ratings_get ratings) in
  firstn (1 + (List.length endpoints - 1) / OVERPROVISIONING_FACTOR)%nat endpoints.

(** The reason strings the specification lists for [CircuitBreakerOpen]. *)
Definition spec_reason (method msg : string) : Prop :=
  msg = "global"
  \/ msg = "method:" ++ method
  \/ (exists e, msg = "endpoint:" ++ e)
  \/ (exists e, msg = "method-instance:(" ++ e ++ "," ++ method ++ ")").

(** Ascending by rating. *)
Definition by_key (key : string -> Z) (x y : string) : Prop := key x <= key y.

(** The exceptions that come from a lookup, a comparison or an iteration,
    not from a [raise] statement of [select_endpoint]. *)
Definition plain (e : exn) : Prop :=
  match e with
  | CircuitBreakerOpen _ | NotConnected _ => False
  | _ => True
  end.

(** One step through a sequence of statements that is known to end in a
    given way. *)
Ltac rstep H :=
  match type of H with
  | rbind ?c _ = _ =>
      let E := fresh "E" in
      destruct c eqn:E; cbn [rbind] in H; [|try discriminate H]
  | (if ?c then _ else _) = _ =>
      let E := fresh "E" in
      destruct c eqn:E; [try discriminate H|]
  end.

(** What the code puts into the exceptions of [select_endpoint], and when:
    the message of a [CircuitBreakerOpen] names the tier whose effective count
    is above the threshold, that of a [NotConnected] the method. *)
Definition code_reason (py : interpreter) (now : Q) (method : string)
           (self : MultiCauseCircuitBreaker) (ex : exn) : Prop :=
  match ex with
  | CircuitBreakerOpen msg =>
      (msg = "global failure rate too high"
       /\ exists c, effective py now (global_fail self) = Ok c
                    /\ MAXIMUM_ERRORS_BEFORE_OPEN < c)
      \/ (msg = "method failure rate too high for method " ++ method
          /\ exists s c, Dict.get method (method_fail self) = Some s
                         /\ effective py now s = Ok c
                         /\ MAXIMUM_ERRORS_BEFORE_OPEN < c)
      \/ (exists e s c,
            msg = "endpoint failure rate too high for endpoint " ++ e
            /\ Dict.get e (endpoint_fail self) = Some s
            /\ effective py now s = Ok c
            /\ MAXIMUM_ERRORS_BEFORE_OPEN < c)
      \/ (exists e s c,
            msg = "method instance failure rate too high for (endpoint, method) = ("
                    ++ e ++ ", " ++ method ++ ")"
            /\ instance_tally method e self = Some s
            /\ effective py now s = Ok c
            /\ MAXIMUM_ERRORS_BEFORE_OPEN < c)
  | NotConnected msg =>
      msg = "no endpoints configured for method: " ++ method
      \/ msg = "no endpoints available for method: " ++ method
  | _ => True
  end.

(** A method keeps a property of the breaker, however it ends. *)
Definition keeps {A : Type} (I : MultiCauseCircuitBreaker -> Prop) (c : M A) : Prop :=
  forall s s' r, c s = (s', r) -> I s -> I s'.

(** The exceptions [_cleanup] can raise. *)
Definition from_sweep (e : exn) : Prop :=
  match e with
  | KeyError _ | RuntimeError => True
  | _ => False
  end.

Import Conn.

(** The transition table of the specification: per row the condition and
    the action, in the order of evaluation. *)
Inductive action : Type :=
| DoClose
| SetStatus (s : status_t).

Definition transition_table (now : Q) (self : Connection) : list (bool * action) :=
  [ (status_eqb (status self) UNRESPONSIVE
       && Qge_bool (now - last_status_change self) (unresponsive_disconnect self),
     DoClose);
    (Qge_bool (now - last_seen self) (timeout self), SetStatus UNRESPONSIVE);
    (status_eqb (status self) IDLE
       && Qge_bool (now - last_status_change self) (idle_disconnect self),
     DoClose);
    (Qge_bool (now - last_message self) (idle_timeout self), SetStatus IDLE);
    (true, SetStatus RESPONSIVE) ].

Fixpoint first_match (rows : list (bool * action)) : option action :=
  match rows with
  | [] => None
  | (cond, a) :: rest => if cond then Some a else first_match rest
  end.

(** What a row does according to the specification: [close()] moves to
    [CLOSED] and asks the transport to disconnect; setting a status stamps
    [last_status_change] exactly when the status assigned is a new one. *)
Definition apply_action (now : Q) (a : option action) (self : Connection)
  : Connection :=
  match a with
  | None => self
  | Some DoClose =>
      with_server_disconnects (endpoint self :: server_disconnects self)
                              (with_status CLOSED self)
  | Some (SetStatus s) =>
      Build (server_disconnects self) (endpoint self) (timeout self)
            (heartbeat_interval self) (idle_timeout self)
            (unresponsive_disconnect self) (idle_disconnect self)
            (last_seen self) (last_message self) (created_at self)
            (explicit_heartbeat_count self) s
            (if status_eqb s (status self) then last_status_change self else now)
            (received_message_count self) (sent_message_count self)
  end.

(** A connection that was closed after its peer had been seen. *)
Definition closed_peer : Connection :=
  Build ["peer"] "peer" 1 1 10 30 60 5 5 0 0 CLOSED 5 1 0.

(** A connection whose peer was seen two seconds ago. *)
Definition silent_peer : Connection :=
  Build [] "peer" 1 1 10 30 60 5 5 0 0 RESPONSIVE 5 1 0.

(** ** Vocabulary of the further properties *)

(** The test of the sweep on one tally: [(tally[1] or 0) < cleanup_before]. *)
Definition expired (now : Q) (s : tally) : bool :=
  Qlt_bool (or0 (last_time s)) (now - CLEANUP_INTERVAL).

(** The test of line 101: the sweep runs in this call. *)
Definition sweep_due (now : Q) (self : MultiCauseCircuitBreaker) : bool :=
  Qlt_bool (last_cleanup self) (now - CLEANUP_INTERVAL).

(** The tally carries a time: a failure was written to it after it was made
    or last reset. *)
Definition timed (s : tally) : Prop := last_time s <> None.

(** The rating an endpoint has in a rating map. *)
Definition rating (ratings : Dict.t Z) (k : string) : Z := ratings_get ratings k.

(** What [observe_failure] and [observe_success] leave on a registered pair:
    [f] applied to the four tallies. *)
Definition on_pair (f : tally -> tally) (endpoint method : string)
           (se sm si : tally) (inst : Dict.t tally)
           (self : MultiCauseCircuitBreaker) : MultiCauseCircuitBreaker :=
  Breaker (f (global_fail self))
          (Dict.set endpoint (f se) (endpoint_fail self))
          (Dict.set method (f sm) (method_fail self))
          (Dict.set method (Dict.set endpoint (f si) inst)
                    (method_instance_fail self))
          (adjust_endpoint_rating self) (last_cleanup self).

(** Split a conjunction into its parts, and nothing else. *)
Ltac splits := repeat match goal with |- _ /\ _ => split end.


(** What happens to a connection: one iteration of the status loop at clock
    [now], a frame received or sent, a call of [close()]. *)
Inductive event : Type :=
| Tick (now : Q)
| Recv (now : Q) (msg : message)
| Send (now : Q) (msg : message)
| Close.

Definition step (self : Connection) (ev : event) : Connection :=
  match ev with
  | Tick now => live_check_loop [now] self
  | Recv now msg => on_recv now msg self
  | Send now msg => on_send now msg self
  | Close => close self
  end.

Definition run (evs : list event) (self : Connection) : Connection :=
  fold_left step evs self.

Definition is_recv (ev : event) : bool :=
  match ev with
  | Recv _ _ => true
  | _ => false
  end.

Definition is_send (ev : event) : bool :=
  match ev with
  | Send _ _ => true
  | _ => false
  end.

Definition is_close (ev : event) : bool :=
  match ev with
  | Close => true
  | _ => false
  end.

(** ** Facts about dicts *)

Section DictFacts.
Context {V : Type}.
Implicit Types (d : Dict.t V) (k : string) (v : V).

Lemma get_set_same k v d : Dict.get k (Dict.set k v d) = Some v.
Proof.
  induction d as [|[k' v'] d IH]; simpl.
  - now rewrite String.eqb_refl.
  - destruct (String.eqb k k') eqn:E; simpl; rewrite E; auto.
Qed.

Lemma get_set_other k k' v d :
  k' <> k -> Dict.get k' (Dict.set k v d) = Dict.get k' d.
Proof.
  intros Hne. induction d as [|[k0 v0] d IH]; simpl.
  - destruct (String.eqb_spec k' k); congruence.
  - destruct (String.eqb_spec k k0) as [->|]; simpl.
    + destruct (String.eqb_spec k' k0); congruence.
    + now rewrite IH.
Qed.

Lemma keys_set_present k v d :
  Dict.contains k d = true -> Dict.keys (Dict.set k v d) = Dict.keys d.
Proof.
  unfold Dict.contains, Dict.keys.
  induction d as [|[k0 v0] d IH]; simpl; [discriminate|].
  destruct (String.eqb k k0); simpl; intros H; [reflexivity|].
  now rewrite IH.
Qed.

Lemma contains_set k k' v d :
  Dict.contains k' d = true -> Dict.contains k' (Dict.set k v d) = true.
Proof.
  unfold Dict.contains. intros H.
  destruct (String.eqb_spec k' k) as [->|Hne].
  - now rewrite get_set_same.
  - now rewrite get_set_other.
Qed.

Lemma getitem_ok k d v : Dict.getitem k d = Ok v -> Dict.get k d = Some v.
Proof. unfold Dict.getitem. destruct (Dict.get k d); congruence. Qed.

Lemma is_empty_false d : Dict.is_empty d = false -> d <> [].
Proof. destruct d; simpl; congruence. Qed.
End DictFacts.

(** ** The liveness monitor *)

Lemma Qge_bool_iff (a b : Q) : Qge_bool a b = true <-> (b <= a)%Q.
Proof. unfold Qge_bool. apply Qle_bool_iff. Qed.

Lemma status_eqb_eq (a b : status_t) : status_eqb a b = true <-> a = b.
Proof. destruct a, b; simpl; split; congruence. Qed.

Lemma set_status_stamp (now : Q) (s : status_t) (self : Connection) :
  last_status_change (set_status now s self)
  = (if status_eqb s (status self) then last_status_change self else now)
  /\ status (set_status now s self) = s.
Proof. unfold set_status. destruct (status_eqb s (status self)); auto. Qed.

(** C6.  When the peer was seen before ([last_seen] is not 0), one call of
    [update_status] does what the first matching row of the transition table
    says, the rows taken in the order (1) UNRESPONSIVE for
    [unresponsive_disconnect]: close, (2) silent for [timeout]: UNRESPONSIVE,
    (3) IDLE for [idle_disconnect]: close, (4) no message for
    [idle_timeout]: IDLE, (5) otherwise RESPONSIVE; some row always matches,
    and a row that sets a status stamps [last_status_change] exactly when the
    status is a new one.  This holds for every status, in particular for
    every status other than CLOSED. *)
Theorem update_status_first_match (now : Q) (self : Connection) :
  ~ (last_seen self == 0)%Q ->
  update_status now self
  = apply_action now (first_match (transition_table now self)) self
  /\ first_match (transition_table now self) <> None.
Proof.
  intros Hseen.
  assert (E : Qeq_bool (last_seen self) 0 = false).
  { destruct (Qeq_bool (last_seen self) 0) eqn:E; [|reflexivity].
    apply Qeq_bool_iff in E. contradiction. }
  unfold update_status, transition_table. rewrite E. simpl.
  destruct self as [sd ep to hb it ud idd ls lm ca hc st lsc rc sc]; simpl in *.
  destruct (status_eqb st UNRESPONSIVE && Qge_bool (now - lsc) ud) eqn:R1.
  { apply andb_prop in R1 as [R1 _]. apply status_eqb_eq in R1. subst st.
    split; [reflexivity|discriminate]. }
  destruct (Qge_bool (now - ls) to) eqn:R2.
  { split; [|discriminate]. unfold set_status; simpl.
    destruct st; reflexivity. }
  destruct (status_eqb st IDLE && Qge_bool (now - lsc) idd) eqn:R3.
  { apply andb_prop in R3 as [R3 _]. apply status_eqb_eq in R3. subst st.
    split; [reflexivity|discriminate]. }
  destruct (Qge_bool (now - lm) it) eqn:R4.
  { split; [|discriminate]. unfold set_status; simpl.
    destruct st; reflexivity. }
  split; [|discriminate]. unfold set_status; simpl.
  destruct st; reflexivity.
Qed.

Lemma update_status_first_match_witness :
  ~ (last_seen silent_peer == 0)%Q
  /\ update_status 7 silent_peer
     = apply_action 7 (first_match (transition_table 7 silent_peer)) silent_peer.
Proof.
  assert (H : ~ (last_seen silent_peer == 0)%Q) by (vm_compute; discriminate).
  split; [exact H|].
  exact (proj1 (update_status_first_match 7 silent_peer H)).
Defined.

(** C7, the claim as stated fails: on a closed connection whose peer had been
    seen, [update_status] assigns UNRESPONSIVE. *)
Lemma update_status_reopens_closed :
  status closed_peer = CLOSED
  /\ status (update_status 10 closed_peer) = UNRESPONSIVE.
Proof. split; reflexivity. Qed.

(** C7, amended.  On a connection whose status is CLOSED: [close()] changes
    nothing, the transport is not asked to disconnect again; [on_recv] and
    [on_send] leave the status CLOSED; the status loop [live_check_loop]
    stops without calling [update_status], whatever the clock shows; and
    [update_status] itself changes nothing as long as the peer was never
    seen. *)
Theorem closed_is_kept (self : Connection) :
  status self = CLOSED ->
  close self = self
  /\ (forall now msg, status (on_recv now msg self) = CLOSED)
  /\ (forall now msg, status (on_send now msg self) = CLOSED)
  /\ (forall ticks, live_check_loop ticks self = self)
  /\ (forall now, (last_seen self == 0)%Q -> update_status now self = self).
Proof.
  intros Hc. repeat split.
  - unfold close. now rewrite Hc.
  - intros now [idle]. unfold on_recv; simpl. destruct idle; simpl; exact Hc.
  - intros now [idle]. unfold on_send; simpl. destruct idle; simpl; exact Hc.
  - intros [|now rest]; simpl; [reflexivity|]. now rewrite Hc.
  - intros now H0. unfold update_status.
    apply Qeq_bool_iff in H0. now rewrite H0.
Qed.

Lemma closed_is_kept_witness :
  close closed_peer = closed_peer
  /\ live_check_loop [10%Q; 11%Q] closed_peer = closed_peer.
Proof.
  pose proof (closed_is_kept closed_peer eq_refl) as [H1 [_ [_ [H4 _]]]].
  split; [exact H1 | exact (H4 _)].
Defined.

(** C10.  [on_send] adds one to [sent_message_count], sets [last_message] to
    the clock exactly when the message is not idle chatter, and changes no
    other attribute: not [last_seen], [status], [last_status_change] or
    [received_message_count], and the transport is not called.  [last_seen]
    is set by [on_recv]. *)
Theorem on_send_frame (now : Q) (msg : message) (self : Connection) :
  on_send now msg self
  = with_sent_message_count (sent_message_count self + 1)
      (with_last_message
         (if is_idle_chatter msg then last_message self else now) self)
  /\ sent_message_count (on_send now msg self) = sent_message_count self + 1
  /\ last_message (on_send now msg self)
     = (if is_idle_chatter msg then last_message self else now)
  /\ last_seen (on_send now msg self) = last_seen self
  /\ status (on_send now msg self) = status self
  /\ last_status_change (on_send now msg self) = last_status_change self
  /\ received_message_count (on_send now msg self) = received_message_count self
  /\ server_disconnects (on_send now msg self) = server_disconnects self
  /\ last_seen (on_recv now msg self) = now.
Proof.
  destruct msg as [[|]], self; unfold on_send, on_recv; simpl; repeat split.
Qed.

(** ** The circuit breaker: recording observations *)

Lemma registered_inv (endpoint method : string) (self : MultiCauseCircuitBreaker) :
  registered endpoint method self = true ->
  exists se sm inst si,
    Dict.get endpoint (endpoint_fail self) = Some se
    /\ Dict.get method (method_fail self) = Some sm
    /\ Dict.get method (method_instance_fail self) = Some inst
    /\ Dict.get endpoint inst = Some si.
Proof.
  unfold registered, instance_tally, Dict.contains. intros H.
  destruct (Dict.get endpoint (endpoint_fail self)) as [se|]; [|discriminate].
  destruct (Dict.get method (method_fail self)) as [sm|]; [|discriminate].
  destruct (Dict.get method (method_instance_fail self)) as [inst|]; [|discriminate].
  destruct (Dict.get endpoint inst) as [si|] eqn:Hsi; [|discriminate].
  exists se, sm, inst, si. repeat split. exact Hsi.
Qed.

Lemma contains_of_get {V : Type} (k : string) (d : Dict.t V) (v : V) :
  Dict.get k d = Some v -> Dict.contains k d = true.
Proof. unfold Dict.contains. now intros ->. Qed.

(** C9.  On a registered pair, [observe_success(endpoint, method)] returns
    normally and leaves [[0, None]] in the four tallies that cover the pair,
    the global one among them; the tally of every other endpoint, of every
    other method and of every other (method, endpoint) pair is as before, no
    key is added or removed, and [last_cleanup] is as before. *)
Theorem observe_success_frame (endpoint method : string)
        (self : MultiCauseCircuitBreaker) :
  registered endpoint method self = true ->
  exists self',
    observe_success endpoint method self = (self', Ok tt)
    /\ global_fail self' = fresh
    /\ Dict.get endpoint (endpoint_fail self') = Some fresh
    /\ Dict.get method (method_fail self') = Some fresh
    /\ instance_tally method endpoint self' = Some fresh
    /\ (forall e', e' <> endpoint ->
          Dict.get e' (endpoint_fail self') = Dict.get e' (endpoint_fail self))
    /\ (forall m', m' <> method ->
          Dict.get m' (method_fail self') = Dict.get m' (method_fail self))
    /\ (forall m' e', m' <> method \/ e' <> endpoint ->
          instance_tally m' e' self' = instance_tally m' e' self)
    /\ Dict.keys (endpoint_fail self') = Dict.keys (endpoint_fail self)
    /\ Dict.keys (method_fail self') = Dict.keys (method_fail self)
    /\ Dict.keys (method_instance_fail self')
       = Dict.keys (method_instance_fail self)
    /\ last_cleanup self' = last_cleanup self.
Proof.
  intros Hreg.
  destruct (registered_inv _ _ _ Hreg) as (se & sm & inst & si & He & Hm & Hi & Hie).
  unfold observe_success, bind, on_global, modify, on_endpoint, on_method,
    on_instance; simpl.
  rewrite He; simpl. rewrite get_set_same; simpl.
  rewrite Hm; simpl. rewrite get_set_same; simpl.
  rewrite Hi, Hie; simpl. rewrite !get_set_same; simpl.
  eexists. split; [reflexivity|]. simpl.
  unfold instance_tally; simpl.
  repeat rewrite get_set_same.
  repeat split.
  - intros e' Hne. now rewrite !get_set_other.
  - intros m' Hne. now rewrite !get_set_other.
  - intros m' e' Hne.
    destruct (String.eqb_spec m' method) as [->|Hm'].
    + rewrite !get_set_same, Hi.
      destruct Hne as [Hne|Hne]; [congruence|].
      now rewrite !get_set_other.
    + now rewrite !get_set_other.
  - rewrite !keys_set_present; eauto using contains_of_get, contains_set.
  - rewrite !keys_set_present; eauto using contains_of_get, contains_set.
  - rewrite !keys_set_present; eauto using contains_of_get, contains_set.
Qed.

Lemma observe_success_frame_witness :
  registered "A" "a" (one_pair 0 "A" "a" (repeat 1%Q 10)) = true
  /\ exists self',
       observe_success "A" "a" (one_pair 0 "A" "a" (repeat 1%Q 10)) = (self', Ok tt)
       /\ global_fail self' = fresh.
Proof.
  assert (H : registered "A" "a" (one_pair 0 "A" "a" (repeat 1%Q 10)) = true)
    by reflexivity.
  split; [exact H|].
  destruct (observe_success_frame "A" "a" _ H) as (self' & H1 & H2 & _).
  exists self'. split; [exact H1 | exact H2].
Defined.

(** ** The circuit breaker: sorting the candidates *)

Section Sorting.
Variable key : string -> Z.

Lemma insert_sorted_perm (x : string) (l : list string) :
  Permutation (x :: l) (insert_sorted key x l).
Proof.
  induction l as [|y l IH]; simpl; [reflexivity|].
  destruct (key x <=? key y); [reflexivity|].
  rewrite perm_swap. now apply perm_skip.
Qed.

Lemma sorted_perm (l : list string) : Permutation l (sorted l key).
Proof.
  induction l as [|x l IH]; simpl; [reflexivity|].
  rewrite <- insert_sorted_perm. now apply perm_skip.
Qed.

Lemma insert_sorted_ascending (x : string) (l : list string) :
  StronglySorted (by_key key) l -> StronglySorted (by_key key) (insert_sorted key x l).
Proof.
  induction 1 as [|y l Hsorted IH Hall]; simpl.
  - repeat constructor.
  - destruct (Z.leb_spec (key x) (key y)) as [Hle|Hlt].
    + constructor; [now constructor|].
      constructor; [exact Hle|].
      eapply Forall_impl; [|exact Hall]. unfold by_key in *.
      intros z Hz. lia.
    + constructor; [exact IH|].
      eapply Permutation_Forall; [apply insert_sorted_perm|].
      constructor; [unfold by_key; lia | exact Hall].
Qed.

Lemma sorted_ascending (l : list string) : StronglySorted (by_key key) (sorted l key).
Proof.
  induction l as [|x l IH]; simpl; [constructor|].
  now apply insert_sorted_ascending.
Qed.

(** Stability: the endpoints of one rating come out in the order they went
    in. *)
Lemma insert_sorted_stable (v : Z) (x : string) (l : list string) :
  filter (fun y => key y =? v) (insert_sorted key x l)
  = filter (fun y => key y =? v) (x :: l).
Proof.
  induction l as [|y l IH]; simpl; [reflexivity|].
  destruct (Z.leb_spec (key x) (key y)) as [Hle|Hlt]; [reflexivity|].
  simpl. rewrite IH. simpl.
  destruct (Z.eqb_spec (key x) v), (Z.eqb_spec (key y) v); try reflexivity.
  lia.
Qed.

Lemma sorted_stable (v : Z) (l : list string) :
  filter (fun y => key y =? v) (sorted l key) = filter (fun y => key y =? v) l.
Proof.
  induction l as [|x l IH]; simpl; [reflexivity|].
  rewrite insert_sorted_stable. simpl. now rewrite IH.
Qed.
End Sorting.

Lemma random_choice_in (rnd : nat) (l : list string) (e : string) :
  random_choice rnd l = Ok e -> In e l.
Proof.
  unfold random_choice.
  destruct (nth_error l (rnd mod List.length l)) as [x|] eqn:E; [|discriminate].
  intros [= <-]. eapply nth_error_In; eauto.
Qed.

Lemma random_choice_total (rnd : nat) (l : list string) :
  l <> [] -> exists e, random_choice rnd l = Ok e.
Proof.
  intros Hne. unfold random_choice.
  destruct (nth_error l (rnd mod List.length l)) as [x|] eqn:E; [eauto|].
  apply nth_error_None in E.
  assert (List.length l <> 0)%nat by (destruct l; simpl; congruence).
  pose proof (Nat.mod_upper_bound rnd (List.length l)). lia.
Qed.

(** ** The circuit breaker: the sweep *)

Lemma for_keys_raises (P : exn -> Prop) (py : interpreter)
      (size : MultiCauseCircuitBreaker -> nat) (n : nat) (body : string -> M unit) :
  P RuntimeError ->
  (forall k s s' e, body k s = (s', Raise e) -> P e) ->
  forall ks s s' e, for_keys py size n ks body s = (s', Raise e) -> P e.
Proof.
  intros HR Hbody. induction ks as [|k ks IH]; intros s s' e; simpl.
  - destruct py; [intros [=]|].
    destruct (Nat.eqb (size s) n); intros [=]; subst; exact HR.
  - assert (Hrun : (body k ;; for_keys py size n ks body)%breaker s = (s', Raise e)
                   -> P e).
    { unfold bind. destruct (body k s) as [s1 [[]|e1]] eqn:Hb.
      - apply IH.
      - intros [= <- <-]. eapply Hbody; eauto. }
    destruct py; [exact Hrun|].
    destruct (Nat.eqb (size s) n); [exact Hrun|].
    intros [= <- <-]. exact HR.
Qed.

Lemma getitem_raises {V : Type} (k : string) (d : Dict.t V) (e : exn) :
  Dict.getitem k d = Raise e -> from_sweep e.
Proof.
  unfold Dict.getitem. destruct (Dict.get k d); [discriminate|].
  intros [= <-]. exact I.
Qed.

Lemma cleanup_raises (py : interpreter) (now : Q)
      (self self' : MultiCauseCircuitBreaker) (e : exn) :
  _cleanup py now self = (self', Raise e) -> from_sweep e.
Proof.
  unfold _cleanup.
  unfold bind at 1.
  match goal with
  | |- context [for_keys ?p ?sz ?n ?ks ?body self] =>
      destruct (for_keys p sz n ks body self) as [s1 [[]|e1]] eqn:L1
  end.
  2:{ intros [= <- <-]. revert L1. apply for_keys_raises; [exact I|].
      intros k s s' e0. unfold bind, reading, modify, ret.
      destruct (Dict.getitem k (endpoint_fail s)) eqn:G.
      - destruct (Qlt_bool _ _); discriminate.
      - intros [= <- <-]. eapply getitem_raises; eauto. }
  unfold bind at 1.
  match goal with
  | |- context [for_keys ?p ?sz ?n ?ks ?body s1] =>
      destruct (for_keys p sz n ks body s1) as [s2 [[]|e2]] eqn:L2
  end.
  { unfold modify. discriminate. }
  intros [= <- <-]. revert L2. apply for_keys_raises; [exact I|].
  intros method s s' e0. unfold bind at 1. unfold reading at 1.
  destruct (Dict.getitem method (method_fail s)) as [sm|e3] eqn:G.
  2:{ intros [= <- <-]. eapply getitem_raises; eauto. }
  unfold bind at 1.
  match goal with
  | |- context [if ?c then _ else _] => destruct c
  end; unfold modify at 1, ret at 1.
  - unfold bind at 1, reading at 1. simpl method_instance_fail.
    destruct (Dict.getitem method (method_instance_fail s)) as [inst|e4] eqn:G2.
    2:{ intros [= <- <-]. eapply getitem_raises; eauto. }
    apply for_keys_raises; [exact I|].
    intros k t t' e5. unfold bind at 1, reading at 1.
    destruct (Dict.getitem method (method_instance_fail t)) as [inst'|e6] eqn:G3;
      simpl rbind.
    2:{ intros [= <- <-]. eapply getitem_raises; eauto. }
    destruct (Dict.getitem k inst') as [sk|e7] eqn:G4.
    2:{ intros [= <- <-]. eapply getitem_raises; eauto. }
    destruct (Qlt_bool _ _); [|discriminate].
    unfold bind, on_instances_pop, reading, modify, ret.
    apply getitem_ok in G3. rewrite G3. simpl.
    unfold Dict.getitem. rewrite get_set_same.
    destruct (Dict.is_empty _); discriminate.
  - unfold bind at 1, reading at 1.
    destruct (Dict.getitem method (method_instance_fail s)) as [inst|e4] eqn:G2.
    2:{ intros [= <- <-]. eapply getitem_raises; eauto. }
    apply for_keys_raises; [exact I|].
    intros k t t' e5. unfold bind at 1, reading at 1.
    destruct (Dict.getitem method (method_instance_fail t)) as [inst'|e6] eqn:G3;
      simpl rbind.
    2:{ intros [= <- <-]. eapply getitem_raises; eauto. }
    destruct (Dict.getitem k inst') as [sk|e7] eqn:G4.
    2:{ intros [= <- <-]. eapply getitem_raises; eauto. }
    destruct (Qlt_bool _ _); [|discriminate].
    unfold bind, on_instances_pop, reading, modify, ret.
    apply getitem_ok in G3. rewrite G3. simpl.
    unfold Dict.getitem. rewrite get_set_same.
    destruct (Dict.is_empty _); discriminate.
Qed.

(** What [select_endpoint] returns or raises is what the sweep raised, or
    what lines 104-142 give on the breaker it leaves. *)
Lemma select_endpoint_inv (py : interpreter) (now : Q) (rnd : nat) (method : string)
      (endpoints : option (list string)) (self self' : MultiCauseCircuitBreaker)
      (r : result string) :
  select_endpoint py now rnd method endpoints self = (self', r) ->
  (exists e, r = Raise e /\ from_sweep e)
  \/ r = choose_endpoint py now rnd method endpoints self'.
Proof.
  unfold select_endpoint, bind, reading, ret.
  destruct (Qlt_bool (last_cleanup self) (now - CLEANUP_INTERVAL)).
  - destruct (_cleanup py now self) as [s1 [[]|e]] eqn:Hc.
    + intros [= <- <-]. now right.
    + intros [= <- <-]. left. exists e. split; [reflexivity|].
      eapply cleanup_raises; eauto.
  - intros [= <- <-]. now right.
Qed.

(** ** The circuit breaker: the decision *)

Lemma apply_ignore_before_raises (py : interpreter) (ib : Q) (s : tally) (e : exn) :
  apply_ignore_before py ib s = Raise e -> plain e.
Proof.
  unfold apply_ignore_before. destruct (last_time s) as [t|].
  - destruct (Qle_bool t ib); discriminate.
  - destruct py; [discriminate|]. intros [= <-]. exact I.
Qed.

Lemma getitem_plain {V : Type} (k : string) (d : Dict.t V) (e : exn) :
  Dict.getitem k d = Raise e -> plain e.
Proof.
  unfold Dict.getitem. destruct (Dict.get k d); [discriminate|].
  intros [= <-]. exact I.
Qed.

Lemma sort_key_raises (py : interpreter) (ib : Q) (method : string)
      (self : MultiCauseCircuitBreaker) (k : string) (e : exn) :
  sort_key py ib method self k = Raise e -> plain e.
Proof.
  unfold sort_key. intros H.
  rstep H; [|injection H as <-; eapply getitem_plain; eauto].
  rstep H; [|injection H as <-; eapply apply_ignore_before_raises; eauto].
  rstep H; [|injection H as <-; eapply getitem_plain; eauto].
  rstep H; [|injection H as <-; eapply getitem_plain; eauto].
  rstep H; [|injection H as <-; eapply apply_ignore_before_raises; eauto].
  discriminate.
Qed.

Lemma dict_comprehension_raises (value : string -> result Z) (e : exn) :
  (forall k e', value k = Raise e' -> plain e') ->
  forall l acc, dict_comprehension value l acc = Raise e -> plain e.
Proof.
  intros Hv. induction l as [|k l IH]; intros acc; simpl; [discriminate|].
  intros H. rstep H; [eauto|]. injection H as <-. eauto.
Qed.

Lemma rate_endpoints_raises (py : interpreter) (ib : Q) (method : string)
      (endpoints : option (list string)) (self : MultiCauseCircuitBreaker) (e : exn) :
  rate_endpoints py ib method endpoints self = Raise e -> plain e.
Proof.
  unfold rate_endpoints. intros H.
  rstep H.
  - rstep H; [discriminate|]. injection H as <-.
    eapply dict_comprehension_raises; [|eauto].
    intros k e'. apply sort_key_raises.
  - injection H as <-.
    destruct endpoints as [[|x l]|]; try discriminate;
      (rstep E; [discriminate|]; injection E as <-; eapply getitem_plain; eauto).
Qed.

Lemma random_choice_raises (rnd : nat) (l : list string) (e : exn) :
  random_choice rnd l = Raise e -> plain e.
Proof.
  unfold random_choice. destruct (nth_error _ _); [discriminate|].
  intros [= <-]. exact I.
Qed.

(** When lines 104-142 return an endpoint, every check before the [return]
    was passed. *)
Lemma choose_endpoint_ok_inv (py : interpreter) (now : Q) (rnd : nat)
      (method : string) (endpoints : option (list string))
      (self : MultiCauseCircuitBreaker) (e : string) :
  choose_endpoint py now rnd method endpoints self = Ok e ->
  exists ratings se inst si ce ci,
    rate_endpoints py (now - COOLDOWN_SECONDS) method endpoints self = Ok ratings
    /\ Dict.is_empty ratings = false
    /\ random_choice rnd (shortlist ratings) = Ok e
    /\ Dict.get e (endpoint_fail self) = Some se
    /\ effective py now se = Ok ce /\ ce <= MAXIMUM_ERRORS_BEFORE_OPEN
    /\ Dict.get method (method_instance_fail self) = Some inst
    /\ Dict.get e inst = Some si
    /\ effective py now si = Ok ci /\ ci <= MAXIMUM_ERRORS_BEFORE_OPEN.
Proof.
  unfold choose_endpoint, effective. cbv zeta. intros H.
  repeat rstep H. injection H as <-.
  repeat match goal with
         | E : Dict.getitem _ _ = Ok _ |- _ => apply getitem_ok in E
         end.
  repeat match goal with
         | E : (_ >? _) = false |- _ => rewrite Z.gtb_ltb in E; apply Z.ltb_ge in E
         end.
  do 6 eexists. repeat split; eauto.
Qed.

Lemma choose_endpoint_raise_inv (py : interpreter) (now : Q) (rnd : nat)
      (method : string) (endpoints : option (list string))
      (self : MultiCauseCircuitBreaker) (ex : exn) :
  choose_endpoint py now rnd method endpoints self = Raise ex ->
  code_reason py now method self ex.
Proof.
  assert (Hplain : forall e, plain e -> code_reason py now method self e).
  { intros [] Hp; simpl in *; tauto. }
  unfold choose_endpoint. cbv zeta. intros H.
  rstep H; [|injection H as <-; eauto using apply_ignore_before_raises].
  rstep H.
  { injection H as <-. left. split; [reflexivity|].
    eexists. split; [exact E|]. now apply Z.gtb_lt. }
  rstep H.
  { injection H as <-. now left. }
  rstep H; [|injection H as <-; eauto using @getitem_plain].
  rstep H; [|injection H as <-; eauto using apply_ignore_before_raises].
  rstep H.
  { injection H as <-. right; left. split; [reflexivity|].
    do 2 eexists. split; [eapply getitem_ok; eauto|]. split; [eauto|].
    now apply Z.gtb_lt. }
  rstep H; [|injection H as <-; eauto using rate_endpoints_raises].
  rstep H.
  { injection H as <-. now right. }
  rstep H; [|injection H as <-; eauto using random_choice_raises].
  rstep H; [|injection H as <-; eauto using @getitem_plain].
  rstep H; [|injection H as <-; eauto using apply_ignore_before_raises].
  rstep H.
  { injection H as <-. right; right; left.
    do 3 eexists. split; [reflexivity|].
    split; [eapply getitem_ok; eauto|]. split; [eauto|]. now apply Z.gtb_lt. }
  rstep H; [|injection H as <-; eauto using @getitem_plain].
  rstep H; [|injection H as <-; eauto using @getitem_plain].
  rstep H; [|injection H as <-; eauto using apply_ignore_before_raises].
  rstep H; [|discriminate].
  injection H as <-. right; right; right.
  do 3 eexists. split; [reflexivity|].
  unfold instance_tally.
  match goal with
  | G : Dict.getitem method (method_instance_fail self) = Ok _ |- _ =>
      apply getitem_ok in G; rewrite G
  end.
  split; [eapply getitem_ok; eauto|]. split; [eauto|]. now apply Z.gtb_lt.
Qed.

Lemma sorted_length (l : list string) (key : string -> Z) :
  List.length (sorted l key) = List.length l.
Proof. symmetry. apply Permutation_length, sorted_perm. Qed.

(** C4.  When [select_endpoint(method)] returns an endpoint, then on the
    breaker as the call leaves it, which is the breaker the checks read, that
    endpoint has a tally in [endpoint_fail] and one in
    [method_instance_fail[method]], and the effective counts of both at the
    time of the call are at most [MAXIMUM_ERRORS_BEFORE_OPEN]; this holds for
    every candidate list, adjuster and draw, so also when the shortlist is
    one endpoint. *)
Theorem select_endpoint_never_tripped (py : interpreter) (now : Q) (rnd : nat)
        (method : string) (endpoints : option (list string))
        (self self' : MultiCauseCircuitBreaker) (e : string) :
  select_endpoint py now rnd method endpoints self = (self', Ok e) ->
  exists se si ce ci,
    Dict.get e (endpoint_fail self') = Some se
    /\ effective py now se = Ok ce
    /\ ce <= MAXIMUM_ERRORS_BEFORE_OPEN
    /\ instance_tally method e self' = Some si
    /\ effective py now si = Ok ci
    /\ ci <= MAXIMUM_ERRORS_BEFORE_OPEN.
Proof.
  intros H. apply select_endpoint_inv in H as [(ex & [=] & _)|H].
  symmetry in H. apply choose_endpoint_ok_inv in H
    as (ratings & se & inst & si & ce & ci & _ & _ & _ & H1 & H2 & H3 & H4 & H5 & H6 & H7).
  exists se, si, ce, ci. unfold instance_tally. rewrite H4. auto 10.
Qed.

Lemma select_endpoint_never_tripped_witness :
  select_endpoint Python3 100 0 "a" None two_tied = (two_tied, Ok "B")
  /\ exists se si ce ci,
       Dict.get "B" (endpoint_fail two_tied) = Some se
       /\ effective Python3 100 se = Ok ce
       /\ ce <= MAXIMUM_ERRORS_BEFORE_OPEN
       /\ instance_tally "a" "B" two_tied = Some si
       /\ effective Python3 100 si = Ok ci
       /\ ci <= MAXIMUM_ERRORS_BEFORE_OPEN.
Proof.
  assert (H : select_endpoint Python3 100 0 "a" None two_tied = (two_tied, Ok "B"))
    by (vm_compute; reflexivity).
  split; [exact H|].
  exact (select_endpoint_never_tripped Python3 100 0 "a" None two_tied two_tied "B" H).
Defined.

(** C5, the claim as stated fails: B and A are rated alike and B was
    registered first; the one endpoint kept is B, where the order with ties
    broken by the identifier keeps A. *)
Lemma tie_keeps_insertion_order :
  rate_endpoints Python3 (100 - COOLDOWN_SECONDS) "a" None two_tied
  = Ok [("B", 0); ("A", 0)]
  /\ select_endpoint Python3 100 0 "a" None two_tied = (two_tied, Ok "B")
  /\ spec_shortlist [("B", 0); ("A", 0)] = ["A"]
  /\ ~ In "B" (spec_shortlist [("B", 0); ("A", 0)]).
Proof.
  repeat split; try (vm_compute; reflexivity).
  vm_compute. intros [H|[]]. discriminate H.
Qed.

(** C5, amended.  When [select_endpoint] returns an endpoint, whatever the
    draw, the rating map left by the adjuster is not empty and, with N its
    size, the endpoint is among the first 1 + floor((N-1)/OVERPROVISIONING_FACTOR)
    keys of the map sorted ascending by rating, endpoints of equal rating
    staying in the iteration order of the map (the sort is stable; the
    identifier is not compared); with N = 1 it is the one key. *)
Theorem select_endpoint_in_shortlist (py : interpreter) (now : Q) (rnd : nat)
        (method : string) (endpoints : option (list string))
        (self self' : MultiCauseCircuitBreaker) (e : string) :
  select_endpoint py now rnd method endpoints self = (self', Ok e) ->
  exists ratings,
    rate_endpoints py (now - COOLDOWN_SECONDS) method endpoints self' = Ok ratings
    /\ ratings <> []
    /\ In e (firstn (1 + (List.length ratings - 1) / OVERPROVISIONING_FACTOR)%nat
                    (sorted (Dict.keys ratings) (ratings_get ratings)))
    /\ Permutation (Dict.keys ratings)
                   (sorted (Dict.keys ratings) (ratings_get ratings))
    /\ StronglySorted (by_key (ratings_get ratings))
                      (sorted (Dict.keys ratings) (ratings_get ratings))
    /\ (forall v,
          filter (fun k => ratings_get ratings k =? v)
                 (sorted (Dict.keys ratings) (ratings_get ratings))
          = filter (fun k => ratings_get ratings k =? v) (Dict.keys ratings))
    /\ (List.length ratings = 1%nat -> Dict.keys ratings = [e]).
Proof.
  intros H. apply select_endpoint_inv in H as [(ex & [=] & _)|H].
  symmetry in H. apply choose_endpoint_ok_inv in H
    as (ratings & se & inst & si & ce & ci & Hr & Hne & Hc & _).
  apply random_choice_in in Hc. unfold shortlist in Hc.
  rewrite sorted_length in Hc. unfold Dict.keys in Hc at 1.
  rewrite length_map in Hc.
  exists ratings. split; [exact Hr|]. split; [now apply is_empty_false|].
  split; [exact Hc|]. split; [apply sorted_perm|].
  split; [apply sorted_ascending|]. split; [intros v; apply sorted_stable|].
  intros H1. destruct ratings as [|[k v] [|? ?]]; simpl in H1; try discriminate.
  simpl in Hc. destruct Hc as [->|[]]. reflexivity.
Qed.

Lemma select_endpoint_in_shortlist_witness :
  select_endpoint Python3 100 1 "a" None two_tied = (two_tied, Ok "B")
  /\ exists ratings,
       rate_endpoints Python3 (100 - COOLDOWN_SECONDS) "a" None two_tied = Ok ratings
       /\ In "B" (firstn (1 + (List.length ratings - 1) / OVERPROVISIONING_FACTOR)%nat
                         (sorted (Dict.keys ratings) (ratings_get ratings))).
Proof.
  assert (H : select_endpoint Python3 100 1 "a" None two_tied = (two_tied, Ok "B"))
    by (vm_compute; reflexivity).
  split; [exact H|].
  destruct (select_endpoint_in_shortlist Python3 100 1 "a" None two_tied two_tied "B" H)
    as (ratings & H1 & _ & H3 & _).
  exists ratings. split; [exact H1 | exact H3].
Defined.

(** C8, the claim as stated fails: with eight recent failures the global tier
    trips and the exception carries the sentence "global failure rate too
    high", which is none of the four reason strings of the specification. *)
Lemma reason_is_a_sentence :
  select_endpoint Python3 2 0 "a" None (one_pair 0 "A" "a" (repeat 1%Q 8))
  = (one_pair 0 "A" "a" (repeat 1%Q 8),
     Raise (CircuitBreakerOpen "global failure rate too high"))
  /\ ~ spec_reason "a" "global failure rate too high".
Proof.
  split; [vm_compute; reflexivity|].
  unfold spec_reason. intros [H|[H|[[e H]|[e H]]]]; simpl in H; discriminate H.
Qed.

(** C8, amended.  A [CircuitBreakerOpen] raised by [select_endpoint] carries
    exactly one of the messages "global failure rate too high", "method
    failure rate too high for method <m>", "endpoint failure rate too high
    for endpoint <e>", "method instance failure rate too high for (endpoint,
    method) = (<e>, <m>)", and the tier it names is one whose effective count
    is above [MAXIMUM_ERRORS_BEFORE_OPEN]; a [NotConnected] it raises carries
    "no endpoints configured for method: <m>" or "no endpoints available for
    method: <m>", <m> the method asked for. *)
Theorem select_endpoint_reasons (py : interpreter) (now : Q) (rnd : nat)
        (method : string) (endpoints : option (list string))
        (self self' : MultiCauseCircuitBreaker) (ex : exn) :
  select_endpoint py now rnd method endpoints self = (self', Raise ex) ->
  code_reason py now method self' ex.
Proof.
  intros H. apply select_endpoint_inv in H as [(e & [= ->] & Hs)|H].
  - destruct e; simpl in *; tauto.
  - symmetry in H. eapply choose_endpoint_raise_inv; eauto.
Qed.

Lemma select_endpoint_reasons_witness :
  select_endpoint Python3 2 0 "a" None (one_pair 0 "A" "a" (repeat 1%Q 8))
  = (one_pair 0 "A" "a" (repeat 1%Q 8),
     Raise (CircuitBreakerOpen "global failure rate too high"))
  /\ code_reason Python3 2 "a" (one_pair 0 "A" "a" (repeat 1%Q 8))
                 (CircuitBreakerOpen "global failure rate too high").
Proof.
  assert (H : select_endpoint Python3 2 0 "a" None (one_pair 0 "A" "a" (repeat 1%Q 8))
              = (one_pair 0 "A" "a" (repeat 1%Q 8),
                 Raise (CircuitBreakerOpen "global failure rate too high")))
    by (vm_compute; reflexivity).
  split; [exact H|].
  exact (select_endpoint_reasons Python3 2 0 "a" None _ _ _ H).
Defined.

(** ** The circuit breaker: one pair and its failures *)

Lemma bind_ok {A B : Type} (c : M A) (k : A -> M B)
      (s s' : MultiCauseCircuitBreaker) (a : A) :
  c s = (s', Ok a) -> bind c k s = k a s'.
Proof. unfold bind. now intros ->. Qed.

Lemma add_method_init (t0 : Q) (endpoint method : string) :
  add_method endpoint method (CB.init None t0)
  = (pair_state endpoint method 0 None t0, Ok tt).
Proof.
  unfold add_method, bind, CB.init, Dict.contains; simpl.
  rewrite !String.eqb_refl. reflexivity.
Qed.

Lemma one_pair_fresh (t0 : Q) (endpoint method : string) :
  one_pair t0 endpoint method [] = pair_state endpoint method 0 None t0.
Proof.
  unfold one_pair. now rewrite (bind_ok _ _ _ _ _ (add_method_init _ _ _)).
Qed.

Lemma observe_failure_pair (endpoint method : string) (c : Z) (x : option Q)
      (cleaned now : Q) :
  observe_failure now endpoint method (pair_state endpoint method c x cleaned)
  = (pair_state endpoint method (c + 1) (Some now) cleaned, Ok tt).
Proof.
  unfold observe_failure, bind, on_global, on_endpoint, on_method, on_instance,
    modify, pair_state; simpl.
  repeat (rewrite String.eqb_refl; simpl). reflexivity.
Qed.

Lemma observe_failures_pair (endpoint method : string) (cleaned : Q)
      (times : list Q) (last : Q) :
  forall c x,
    observe_failures (times ++ [last])%list endpoint method
                     (pair_state endpoint method c x cleaned)
    = (pair_state endpoint method (c + Z.of_nat (List.length times) + 1)
                  (Some last) cleaned, Ok tt).
Proof.
  induction times as [|t times IH]; intros c x; simpl.
  - rewrite (bind_ok _ _ _ _ _ (observe_failure_pair _ _ _ _ _ _)).
    unfold ret. now rewrite Z.add_0_r.
  - rewrite (bind_ok _ _ _ _ _ (observe_failure_pair _ _ _ _ _ _)).
    rewrite IH. do 3 f_equal. lia.
Qed.

Lemma one_pair_failed (t0 : Q) (endpoint method : string) (times : list Q) (last : Q) :
  one_pair t0 endpoint method (times ++ [last])%list
  = pair_state endpoint method (Z.of_nat (List.length (times ++ [last])%list))
               (Some last) t0.
Proof.
  unfold one_pair. rewrite (bind_ok _ _ _ _ _ (add_method_init _ _ _)).
  rewrite observe_failures_pair. simpl. f_equal.
  rewrite length_app. simpl. lia.
Qed.

Lemma Qle_bool_false (a b : Q) : (b < a)%Q -> Qle_bool a b = false.
Proof.
  intros H. destruct (Qle_bool a b) eqn:E; [|reflexivity].
  apply Qle_bool_iff in E. lra.
Qed.

Lemma Qlt_bool_false (a b : Q) : (b <= a)%Q -> Qlt_bool a b = false.
Proof.
  intros H. unfold Qlt_bool. apply Qle_bool_iff in H. now rewrite H.
Qed.

(** A sweep drops nothing from a pair that failed within the cooldown. *)
Lemma cleanup_pair_recent (py : interpreter) (now : Q) (endpoint method : string)
      (c : Z) (t cleaned : Q) :
  (now - COOLDOWN_SECONDS < t)%Q ->
  _cleanup py now (pair_state endpoint method c (Some t) cleaned)
  = (pair_state endpoint method c (Some t) now, Ok tt).
Proof.
  intros Hrecent.
  assert (Hkeep : Qlt_bool t (now - CLEANUP_INTERVAL) = false).
  { apply Qlt_bool_false. unfold CLEANUP_INTERVAL, COOLDOWN_SECONDS in *. lra. }
  unfold _cleanup. remember (now - CLEANUP_INTERVAL)%Q as cb.
  unfold pair_state.
  destruct py;
    repeat (progress (unfold bind, reading, modify, ret, Dict.getitem,
                        instance_size; simpl;
                      rewrite ?String.eqb_refl, ?Hkeep));
    reflexivity.
Qed.

(** With the last failure within the cooldown, the one pair is selected up to
    [MAXIMUM_ERRORS_BEFORE_OPEN] failures and the global tier trips above. *)
Lemma select_endpoint_pair_recent (py : interpreter) (now : Q) (rnd : nat)
      (endpoint method : string) (c : Z) (t cleaned : Q) :
  (now - COOLDOWN_SECONDS < t)%Q ->
  select_endpoint py now rnd method None
                  (pair_state endpoint method c (Some t) cleaned)
  = (pair_state endpoint method c (Some t)
                (if Qlt_bool cleaned (now - CLEANUP_INTERVAL) then now else cleaned),
     if c >? MAXIMUM_ERRORS_BEFORE_OPEN
     then Raise (CircuitBreakerOpen "global failure rate too high")
     else Ok endpoint).
Proof.
  intros Hrecent.
  assert (Hcount : Qle_bool t (now - COOLDOWN_SECONDS) = false)
    by now apply Qle_bool_false.
  assert (Hchoose : forall cl,
             choose_endpoint py now rnd method None
                             (pair_state endpoint method c (Some t) cl)
             = if c >? MAXIMUM_ERRORS_BEFORE_OPEN
               then Raise (CircuitBreakerOpen "global failure rate too high")
               else Ok endpoint).
  { intros cl. unfold choose_endpoint, rate_endpoints, sort_key,
      apply_ignore_before, Dict.getitem, Dict.contains, pair_state.
    remember (now - COOLDOWN_SECONDS)%Q as ib.
    unfold _adjust_endpoint_rating, shortlist, random_choice.
    destruct (c >? MAXIMUM_ERRORS_BEFORE_OPEN) eqn:Hc;
      repeat (progress
                (cbn [global_fail method_fail endpoint_fail method_instance_fail
                      last_time count rbind Dict.get adjust_endpoint_rating negb
                      Dict.keys map fst dict_comprehension Dict.set Dict.is_empty
                      sorted fold_right insert_sorted List.length firstn
                      nth_error Nat.sub Nat.div Nat.divmod Nat.add];
                 rewrite ?String.eqb_refl, ?Hcount, ?Hc, ?Z.max_id,
                   ?Nat.mod_1_r));
      reflexivity. }
  unfold select_endpoint, bind at 1, reading, ret.
  cbn [last_cleanup pair_state].
  destruct (Qlt_bool cleaned (now - CLEANUP_INTERVAL)).
  - fold (pair_state endpoint method c (Some t) cleaned).
    rewrite cleanup_pair_recent by exact Hrecent. now rewrite Hchoose.
  - fold (pair_state endpoint method c (Some t) cleaned). now rewrite Hchoose.
Qed.

(** ** The circuit breaker: what the sweep leaves alone *)

Section Keeps.
Variable I : MultiCauseCircuitBreaker -> Prop.

Lemma keeps_bind {A B : Type} (c : M A) (k : A -> M B) :
  keeps I c -> (forall a, keeps I (k a)) -> keeps I (bind c k).
Proof.
  intros Hc Hk s s' r. unfold bind.
  destruct (c s) as [s1 [a|e]] eqn:E.
  - intros H Hs. eapply Hk; eauto.
  - intros [= <- <-] Hs. eapply Hc; eauto.
Qed.

Lemma keeps_reading {A : Type} (f : MultiCauseCircuitBreaker -> result A) :
  keeps I (reading f).
Proof. intros s s' r [= <- <-]. auto. Qed.

Lemma keeps_ret {A : Type} (a : A) : keeps I (ret a).
Proof. intros s s' r [= <- <-]. auto. Qed.

Lemma keeps_modify (f : MultiCauseCircuitBreaker -> MultiCauseCircuitBreaker) :
  (forall s, I s -> I (f s)) -> keeps I (modify f).
Proof. intros Hf s s' r [= <- <-]. auto. Qed.

Lemma keeps_if {A : Type} (b : bool) (c1 c2 : M A) :
  keeps I c1 -> keeps I c2 -> keeps I (if b then c1 else c2).
Proof. destruct b; auto. Qed.

Lemma keeps_for_keys (py : interpreter) (size : MultiCauseCircuitBreaker -> nat)
      (n : nat) (body : string -> M unit) :
  (forall k, keeps I (body k)) ->
  forall ks, keeps I (for_keys py size n ks body).
Proof.
  intros Hbody. induction ks as [|k ks IH]; intros s s' r; simpl.
  - destruct py; [|destruct (Nat.eqb (size s) n)]; intros [= <- <-]; auto.
  - assert (Hrun : keeps I (body k ;; for_keys py size n ks body)%breaker)
      by (apply keeps_bind; auto).
    destruct py; [apply Hrun|].
    destruct (Nat.eqb (size s) n); [apply Hrun|].
    intros [= <- <-]; auto.
Qed.

Lemma keeps_on_instances_pop (method endpoint : string) :
  (forall x s, I s -> I (with_method_instance_fail x s)) ->
  keeps I (on_instances_pop method endpoint).
Proof.
  intros Hf s s' r. unfold on_instances_pop.
  destruct (Dict.get method (method_instance_fail s)); intros [= <- <-]; auto.
Qed.

Hypothesis I_endpoint_fail : forall x s, I s -> I (with_endpoint_fail x s).
Hypothesis I_method_fail : forall x s, I s -> I (with_method_fail x s).
Hypothesis I_method_instance_fail :
  forall x s, I s -> I (with_method_instance_fail x s).
Hypothesis I_last_cleanup : forall x s, I s -> I (with_last_cleanup x s).

(** The sweep keeps whatever the three maps and [last_cleanup] do not
    decide. *)
Lemma keeps_cleanup (py : interpreter) (now : Q) : keeps I (_cleanup py now).
Proof.
  unfold _cleanup.
  apply keeps_bind.
  { intros s s' r. apply keeps_for_keys. intros k.
    apply keeps_bind; [apply keeps_reading|]. intros t.
    apply keeps_if; [apply keeps_modify; auto | apply keeps_ret]. }
  intros _. apply keeps_bind; [|intros _; apply keeps_modify; auto].
  intros s s' r. apply keeps_for_keys. intros method.
  apply keeps_bind; [apply keeps_reading|]. intros t.
  apply keeps_bind.
  { apply keeps_if; [apply keeps_modify; auto | apply keeps_ret]. }
  intros _. apply keeps_bind; [apply keeps_reading|]. intros inst.
  apply keeps_for_keys. intros endpoint.
  apply keeps_bind; [apply keeps_reading|]. intros t'.
  apply keeps_if; [|apply keeps_ret].
  apply keeps_bind; [apply keeps_on_instances_pop; auto|]. intros _.
  apply keeps_bind; [apply keeps_reading|]. intros inst'.
  apply keeps_if; [apply keeps_modify; auto | apply keeps_ret].
Qed.
End Keeps.

Lemma cleanup_keeps_global (py : interpreter) (now : Q)
      (self self' : MultiCauseCircuitBreaker) (r : result unit) :
  _cleanup py now self = (self', r) -> global_fail self' = global_fail self.
Proof.
  intros H.
  apply (keeps_cleanup (fun s => global_fail s = global_fail self)) in H; auto.
Qed.

(** Under Python 3 a global tally without a time makes [select_endpoint]
    raise, whatever else the breaker holds. *)
Lemma select_endpoint_unset_global (now : Q) (rnd : nat) (method : string)
      (endpoints : option (list string)) (self self' : MultiCauseCircuitBreaker)
      (r : result string) :
  last_time (global_fail self) = None ->
  select_endpoint Python3 now rnd method endpoints self = (self', r) ->
  exists ex, r = Raise ex /\ (ex = TypeError \/ from_sweep ex).
Proof.
  intros Hnone. unfold select_endpoint, bind, reading, ret.
  assert (Hchoose : forall s, global_fail s = global_fail self ->
            choose_endpoint Python3 now rnd method endpoints s = Raise TypeError).
  { intros s Hs. unfold choose_endpoint, apply_ignore_before.
    rewrite Hs, Hnone. reflexivity. }
  destruct (Qlt_bool (last_cleanup self) (now - CLEANUP_INTERVAL)).
  - destruct (_cleanup Python3 now self) as [s1 [[]|e]] eqn:Hc.
    + intros [= <- <-]. exists TypeError. split; [|now left].
      apply Hchoose. eapply cleanup_keeps_global; eauto.
    + intros [= <- <-]. exists e. split; [reflexivity|right].
      eapply cleanup_raises; eauto.
  - intros [= <- <-]. exists TypeError. split; [|now left]. now apply Hchoose.
Qed.

Lemma observe_success_global (endpoint method : string)
      (self self' : MultiCauseCircuitBreaker) (r : result unit) :
  observe_success endpoint method self = (self', r) -> global_fail self' = fresh.
Proof.
  intros H.
  assert (K : forall k f, keeps (fun s => global_fail s = fresh) (on_endpoint k f)).
  { intros k f s s1 r1. unfold on_endpoint.
    destruct (Dict.get k (endpoint_fail s)); intros [= <- <-]; auto. }
  assert (K' : forall k f, keeps (fun s => global_fail s = fresh) (on_method k f)).
  { intros k f s s1 r1. unfold on_method.
    destruct (Dict.get k (method_fail s)); intros [= <- <-]; auto. }
  assert (K'' : forall m k f,
             keeps (fun s => global_fail s = fresh) (on_instance m k f)).
  { intros m k f s s1 r1. unfold on_instance.
    destruct (Dict.get m (method_instance_fail s)) as [inst|];
      [destruct (Dict.get k inst)|]; intros [= <- <-]; auto. }
  unfold observe_success in H. unfold bind at 1 2 in H.
  unfold on_global at 1 2, modify in H.
  match type of H with
  | ?c ?s0 = _ =>
      assert (Hk : keeps (fun b => global_fail b = fresh) c)
        by (repeat (apply keeps_bind; [auto|intros _]); auto)
  end.
  exact (Hk _ _ _ H eq_refl).
Qed.

(** ** The circuit breaker: the scenarios of the test suite *)

(** After one or more failures of the one registered pair, all within the
    cooldown, and no success: the pair is selected when the failures are at
    most [MAXIMUM_ERRORS_BEFORE_OPEN], and [CircuitBreakerOpen] is raised
    when they are more. *)
Lemma select_after_failures (py : interpreter) (t0 now : Q) (rnd : nat)
      (endpoint method : string) (times : list Q) (last : Q) :
  (forall x, In x (times ++ [last])%list -> (now - COOLDOWN_SECONDS < x)%Q) ->
  snd (select_endpoint py now rnd method None
                       (one_pair t0 endpoint method (times ++ [last])%list))
  = if Z.of_nat (List.length (times ++ [last])%list) >? MAXIMUM_ERRORS_BEFORE_OPEN
    then Raise (CircuitBreakerOpen "global failure rate too high")
    else Ok endpoint.
Proof.
  intros Hall. rewrite one_pair_failed.
  rewrite select_endpoint_pair_recent; [reflexivity|].
  apply Hall. apply in_or_app. right. now left.
Qed.

(** [test_remains_closed] and [test_breaking] on either interpreter. *)
Lemma test_remains_closed_and_breaking (py : interpreter) (rnd : nat) :
  snd (select_endpoint py 2 rnd "a" None (one_pair 0 "A" "a" (repeat 1%Q 5)))
  = Ok "A"
  /\ snd (select_endpoint py 2 rnd "a" None (one_pair 0 "A" "a" (repeat 1%Q 10)))
     = Raise (CircuitBreakerOpen "global failure rate too high").
Proof.
  split.
  - apply (select_after_failures py 0 2 rnd "A" "a" (repeat 1%Q 4) 1%Q).
    intros x Hx. assert (x = 1%Q) as ->.
    { simpl in Hx. intuition congruence. }
    reflexivity.
  - apply (select_after_failures py 0 2 rnd "A" "a" (repeat 1%Q 9) 1%Q).
    intros x Hx. assert (x = 1%Q) as ->.
    { simpl in Hx. intuition congruence. }
    reflexivity.
Qed.

(** Under Python 3 a registered pair that never failed is not selected,
    whenever the call is made. *)
Lemma python3_unfailed_pair_raises (now t0 : Q) (rnd : nat) (endpoint method : string)
      (self' : MultiCauseCircuitBreaker) (r : result string) :
  select_endpoint Python3 now rnd method None (one_pair t0 endpoint method [])
  = (self', r) ->
  exists ex, r = Raise ex.
Proof.
  intros H. rewrite one_pair_fresh in H.
  apply select_endpoint_unset_global in H as (ex & -> & _); [eauto|reflexivity].
Qed.

(** C1, at the failing input: the pair (A, a) is registered and no failure
    was observed (k = 0).  Python 3: [select_endpoint] raises [TypeError] on
    the global tally [[0, None]], or [RuntimeError] out of the sweep when the
    sweep is due.  Python 2: once the sweep is due it drops the three entries
    of the pair and [NotConnected] is raised. *)
Theorem unfailed_pair_not_selected (rnd : nat) :
  select_endpoint Python3 10 rnd "a" None (one_pair 0 "A" "a" [])
  = (one_pair 0 "A" "a" [], Raise TypeError)
  /\ select_endpoint Python3 4000 rnd "a" None (one_pair 0 "A" "a" [])
     = (with_endpoint_fail [] (one_pair 0 "A" "a" []), Raise RuntimeError)
  /\ select_endpoint Python2 4000 rnd "a" None (one_pair 0 "A" "a" [])
     = (Breaker fresh [] [] [] _adjust_endpoint_rating 4000,
        Raise (NotConnected "no endpoints configured for method: a")).
Proof. repeat split; vm_compute; reflexivity. Qed.

(** [test_closing] on Python 2, before a sweep is due. *)
Lemma test_closing_python2 (rnd : nat) :
  select_endpoint Python2 2 rnd "a" None after_success = (after_success, Ok "A").
Proof. vm_compute. reflexivity. Qed.

(** Under Python 3 no [select_endpoint] that follows an [observe_success]
    returns, on any breaker. *)
Lemma python3_success_then_select_raises (endpoint method : string)
      (self self1 self2 : MultiCauseCircuitBreaker) (now : Q) (rnd : nat)
      (endpoints : option (list string)) (r0 : result unit) (r : result string) :
  observe_success endpoint method self = (self1, r0) ->
  select_endpoint Python3 now rnd method endpoints self1 = (self2, r) ->
  exists ex, r = Raise ex.
Proof.
  intros Hs H. apply observe_success_global in Hs.
  apply select_endpoint_unset_global in H as (ex & -> & _); [eauto|].
  now rewrite Hs.
Qed.

(** C2, at the failing input, the breaker of [test_closing]: ten failures of
    (A, a), then [observe_success(A, a)], then [select_endpoint(a)].
    Python 3: [TypeError] on the global tally [[0, None]].  Python 2: when
    the sweep is due it drops the tallies the success has just reset, and
    [NotConnected] is raised. *)
Theorem success_then_select_raises (rnd : nat) :
  select_endpoint Python3 2 rnd "a" None after_success
  = (after_success, Raise TypeError)
  /\ select_endpoint Python2 4000 rnd "a" None after_success
     = (Breaker fresh [] [] [] _adjust_endpoint_rating 4000,
        Raise (NotConnected "no endpoints configured for method: a")).
Proof. repeat split; vm_compute; reflexivity. Qed.

(** C3, at the failing input, the breaker of [test_cleanup]: (A, 1)
    registered, one failure, the clock 99,999 seconds later.  The sweep runs
    before the checks.  Python 2: the three maps are emptied, then method 1
    is no longer in [method_fail] and [NotConnected] is raised.  Python 3:
    the first [pop] makes the iteration over [endpoint_fail.keys()] raise
    [RuntimeError]; [method_fail] and [method_instance_fail] keep their
    entries. *)
Theorem sweep_then_select_raises (rnd : nat) :
  select_endpoint Python2 99999 rnd "1" None before_sweep
  = (Breaker (Tally 1 (Some 0%Q)) [] [] [] _adjust_endpoint_rating 99999,
     Raise (NotConnected "no endpoints configured for method: 1"))
  /\ select_endpoint Python3 99999 rnd "1" None before_sweep
     = (with_endpoint_fail [] before_sweep, Raise RuntimeError)
  /\ method_fail (with_endpoint_fail [] before_sweep) <> [].
Proof.
  repeat split; try (vm_compute; reflexivity).
  vm_compute. discriminate.
Qed.


(** * Further properties of the circuit breaker *)

(** ** Registration *)

Lemma add_method_registered (endpoint method : string)
      (self : MultiCauseCircuitBreaker) :
  registered endpoint method self = true ->
  add_method endpoint method self = (self, Ok tt).
Proof.
  intros H. destruct (registered_inv _ _ _ H) as (se & sm & inst & si & He & Hm & Hi & Hie).
  unfold add_method, bind, Dict.contains. rewrite He. cbn [negb].
  rewrite Hm. cbn [negb]. rewrite Hi, Hie. reflexivity.
Qed.

(** [add_method] in one piece: the breaker after the first two statements,
    then the third. *)
Lemma add_method_unfold (endpoint method : string) (self : MultiCauseCircuitBreaker) :
  let s1 := if Dict.contains endpoint (endpoint_fail self) then self
            else with_endpoint_fail (Dict.set endpoint fresh (endpoint_fail self)) self in
  let s2 := if Dict.contains method (method_fail s1) then s1
            else with_method_instance_fail
                   (Dict.set method [] (method_instance_fail s1))
                   (with_method_fail (Dict.set method fresh (method_fail s1)) s1) in
  add_method endpoint method self
  = match Dict.get method (method_instance_fail s2) with
    | None => (s2, Raise (KeyError method))
    | Some inst =>
        if Dict.contains endpoint inst then (s2, Ok tt)
        else (with_method_instance_fail
                (Dict.set method (Dict.set endpoint fresh inst)
                          (method_instance_fail s2)) s2, Ok tt)
    end.
Proof.
  unfold add_method, bind.
  destruct (Dict.contains endpoint (endpoint_fail self)); cbn [negb];
    match goal with
    | |- context [Dict.contains method (method_fail ?s)] =>
        destruct (Dict.contains method (method_fail s))
    end; cbn [negb];
    match goal with
    | |- context [Dict.get method (method_instance_fail ?s)] =>
        destruct (Dict.get method (method_instance_fail s)) as [inst|]
    end; try reflexivity;
    destruct (Dict.contains endpoint inst); reflexivity.
Qed.

Lemma add_method_registers (endpoint method : string)
      (self self' : MultiCauseCircuitBreaker) :
  add_method endpoint method self = (self', Ok tt) ->
  registered endpoint method self' = true.
Proof.
  rewrite add_method_unfold. cbv zeta.
  set (s1 := if Dict.contains endpoint (endpoint_fail self) then self else _).
  set (s2 := if Dict.contains method (method_fail s1) then s1 else _).
  assert (H1 : Dict.contains endpoint (endpoint_fail s2) = true).
  { assert (Dict.contains endpoint (endpoint_fail s1) = true).
    { subst s1. destruct (Dict.contains endpoint (endpoint_fail self)) eqn:E; [exact E|].
      unfold Dict.contains. simpl. now rewrite get_set_same. }
    subst s2. destruct (Dict.contains method (method_fail s1)); assumption. }
  assert (H2 : Dict.contains method (method_fail s2) = true).
  { subst s2. destruct (Dict.contains method (method_fail s1)) eqn:E; [exact E|].
    unfold Dict.contains. simpl. now rewrite get_set_same. }
  unfold registered, instance_tally.
  destruct (Dict.get method (method_instance_fail s2)) as [inst|] eqn:Hi;
    [|discriminate].
  destruct (Dict.contains endpoint inst) eqn:Hc; intros [= <-].
  - rewrite H1, H2, Hi. unfold Dict.contains in Hc.
    destruct (Dict.get endpoint inst); [reflexivity|discriminate].
  - cbn [endpoint_fail method_fail method_instance_fail with_method_instance_fail].
    rewrite H1, H2, !get_set_same. reflexivity.
Qed.

(** X1.  Registration is idempotent: when [add_method(endpoint, method)]
    returns, the pair is registered, and calling it again changes nothing. *)
Theorem add_method_idempotent (endpoint method : string)
        (self self' : MultiCauseCircuitBreaker) :
  add_method endpoint method self = (self', Ok tt) ->
  registered endpoint method self' = true
  /\ add_method endpoint method self' = (self', Ok tt).
Proof.
  intros H. apply add_method_registers in H.
  split; [exact H | now apply add_method_registered].
Qed.

Lemma add_method_idempotent_witness :
  add_method "A" "a" (CB.init None 0) = (one_pair 0 "A" "a" [], Ok tt)
  /\ add_method "A" "a" (one_pair 0 "A" "a" []) = (one_pair 0 "A" "a" [], Ok tt).
Proof.
  assert (H : add_method "A" "a" (CB.init None 0) = (one_pair 0 "A" "a" [], Ok tt))
    by reflexivity.
  split; [exact H|].
  exact (proj2 (add_method_idempotent "A" "a" _ _ H)).
Defined.

Lemma get_set_absent {V : Type} (k k' : string) (v s : V) (d : Dict.t V) :
  Dict.contains k' d = false ->
  Dict.get k d = Some s -> Dict.get k (Dict.set k' v d) = Some s.
Proof.
  unfold Dict.contains. intros Hc Hk.
  destruct (String.eqb_spec k k') as [->|Hne].
  - rewrite Hk in Hc. discriminate.
  - now rewrite get_set_other.
Qed.

(** X2.  Registration never resets a failure count: however
    [add_method(endpoint, method)] ends, every tally of [endpoint_fail] and of
    [method_fail] that was there is there unchanged, and so is the global
    tally; the tally of a (method', endpoint') pair is kept as well when
    method' is another method or when [method] is known to [method_fail]. *)
Theorem add_method_keeps_tallies (endpoint method : string)
        (self self' : MultiCauseCircuitBreaker) (r : result unit) :
  add_method endpoint method self = (self', r) ->
  (forall k s, Dict.get k (endpoint_fail self) = Some s ->
               Dict.get k (endpoint_fail self') = Some s)
  /\ (forall k s, Dict.get k (method_fail self) = Some s ->
                  Dict.get k (method_fail self') = Some s)
  /\ (forall m' k s,
        m' <> method \/ Dict.contains method (method_fail self) = true ->
        instance_tally m' k self = Some s -> instance_tally m' k self' = Some s)
  /\ global_fail self' = global_fail self
  /\ last_cleanup self' = last_cleanup self.
Proof.
  rewrite add_method_unfold. cbv zeta.
  set (s1 := if Dict.contains endpoint (endpoint_fail self) then self else _).
  set (s2 := if Dict.contains method (method_fail s1) then s1 else _).
  assert (E1 : method_fail s1 = method_fail self
               /\ method_instance_fail s1 = method_instance_fail self
               /\ global_fail s1 = global_fail self
               /\ last_cleanup s1 = last_cleanup self
               /\ forall k s, Dict.get k (endpoint_fail self) = Some s ->
                              Dict.get k (endpoint_fail s1) = Some s).
  { subst s1. destruct (Dict.contains endpoint (endpoint_fail self)) eqn:E;
      splits; auto. intros k s. simpl. now apply get_set_absent. }
  destruct E1 as (E1m & E1i & E1g & E1c & E1e).
  assert (E2 : endpoint_fail s2 = endpoint_fail s1
               /\ global_fail s2 = global_fail self
               /\ last_cleanup s2 = last_cleanup self
               /\ (forall k s, Dict.get k (method_fail self) = Some s ->
                               Dict.get k (method_fail s2) = Some s)
               /\ (forall m' k s,
                     m' <> method \/ Dict.contains method (method_fail self) = true ->
                     instance_tally m' k self = Some s ->
                     instance_tally m' k s2 = Some s)).
  { subst s2. rewrite E1m. destruct (Dict.contains method (method_fail self)) eqn:E.
    - splits; auto.
      + intros k s. now rewrite E1m.
      + intros m' k s _. unfold instance_tally. now rewrite E1i.
    - splits; auto.
      + intros k s. simpl. now apply get_set_absent.
      + intros m' k s [Hne|Hc]; [|discriminate].
        unfold instance_tally. simpl. rewrite E1i. now rewrite get_set_other. }
  destruct E2 as (E2e & E2g & E2c & E2m & E2i).
  assert (Hs2 : forall k s, Dict.get k (endpoint_fail self) = Some s ->
                            Dict.get k (endpoint_fail s2) = Some s)
    by (intros; rewrite E2e; auto).
  destruct (Dict.get method (method_instance_fail s2)) as [inst|] eqn:Hi.
  2:{ intros [= <- <-]. auto 10. }
  destruct (Dict.contains endpoint inst) eqn:Hc; intros [= <- <-].
  { auto 10. }
  splits; auto.
  intros m' k s Hm' Hk. specialize (E2i m' k s Hm' Hk).
  unfold instance_tally in *. simpl.
  destruct (String.eqb_spec m' method) as [->|Hne].
  - rewrite get_set_same. rewrite Hi in E2i. now apply get_set_absent.
  - now rewrite get_set_other.
Qed.

Lemma add_method_keeps_tallies_witness :
  Dict.get "A" (endpoint_fail (fst (add_method "B" "a" (one_pair 0 "A" "a" [1%Q]))))
  = Some (Tally 1 (Some 1%Q)).
Proof.
  assert (H : Dict.get "A" (endpoint_fail (one_pair 0 "A" "a" [1%Q]))
              = Some (Tally 1 (Some 1%Q))) by (vm_compute; reflexivity).
  exact (proj1 (add_method_keeps_tallies "B" "a" (one_pair 0 "A" "a" [1%Q]) _ _
                  (surjective_pairing _)) "A" _ H).
Defined.

(** ** Recording observations *)

Lemma set_set {V : Type} (k : string) (v w : V) (d : Dict.t V) :
  Dict.set k w (Dict.set k v d) = Dict.set k w d.
Proof.
  induction d as [|[k' v'] d IH]; simpl.
  - now rewrite String.eqb_refl.
  - destruct (String.eqb k k') eqn:E; simpl; rewrite E; [reflexivity|].
    now rewrite IH.
Qed.

Lemma observe_failure_closed (now : Q) (endpoint method : string)
      (self : MultiCauseCircuitBreaker) (se sm si : tally) (inst : Dict.t tally) :
  Dict.get endpoint (endpoint_fail self) = Some se ->
  Dict.get method (method_fail self) = Some sm ->
  Dict.get method (method_instance_fail self) = Some inst ->
  Dict.get endpoint inst = Some si ->
  observe_failure now endpoint method self
  = (on_pair (fun s => Tally (count s + 1) (Some now)) endpoint method
             se sm si inst self, Ok tt).
Proof.
  intros He Hm Hi Hie.
  unfold observe_failure, bind, on_global, modify, on_endpoint, on_method,
    on_instance; simpl.
  rewrite He; simpl. rewrite get_set_same; simpl.
  rewrite Hm; simpl. rewrite get_set_same; simpl.
  rewrite Hi, Hie; simpl. rewrite !get_set_same; simpl.
  unfold on_pair. now rewrite !set_set.
Qed.

Lemma observe_success_closed (endpoint method : string)
      (self : MultiCauseCircuitBreaker) (se sm si : tally) (inst : Dict.t tally) :
  Dict.get endpoint (endpoint_fail self) = Some se ->
  Dict.get method (method_fail self) = Some sm ->
  Dict.get method (method_instance_fail self) = Some inst ->
  Dict.get endpoint inst = Some si ->
  observe_success endpoint method self
  = (on_pair (fun _ => fresh) endpoint method se sm si inst self, Ok tt).
Proof.
  intros He Hm Hi Hie.
  unfold observe_success, bind, on_global, modify, on_endpoint, on_method,
    on_instance; simpl.
  rewrite He; simpl. rewrite get_set_same; simpl.
  rewrite Hm; simpl. rewrite get_set_same; simpl.
  rewrite Hi, Hie; simpl. rewrite !get_set_same; simpl.
  unfold on_pair. now rewrite !set_set.
Qed.

(** X3.  On a registered pair, [observe_failure(endpoint, method)] at clock
    [now] returns normally, adds one to the count of the four tallies that
    cover the pair and stamps them with [now]; the tally of every other
    endpoint, method and pair is as before, and no key is added or removed. *)
Theorem observe_failure_frame (now : Q) (endpoint method : string)
        (self : MultiCauseCircuitBreaker) :
  registered endpoint method self = true ->
  exists self' se sm si,
    observe_failure now endpoint method self = (self', Ok tt)
    /\ Dict.get endpoint (endpoint_fail self) = Some se
    /\ Dict.get method (method_fail self) = Some sm
    /\ instance_tally method endpoint self = Some si
    /\ global_fail self' = Tally (count (global_fail self) + 1) (Some now)
    /\ Dict.get endpoint (endpoint_fail self') = Some (Tally (count se + 1) (Some now))
    /\ Dict.get method (method_fail self') = Some (Tally (count sm + 1) (Some now))
    /\ instance_tally method endpoint self' = Some (Tally (count si + 1) (Some now))
    /\ (forall e', e' <> endpoint ->
          Dict.get e' (endpoint_fail self') = Dict.get e' (endpoint_fail self))
    /\ (forall m', m' <> method ->
          Dict.get m' (method_fail self') = Dict.get m' (method_fail self))
    /\ (forall m' e', m' <> method \/ e' <> endpoint ->
          instance_tally m' e' self' = instance_tally m' e' self)
    /\ Dict.keys (endpoint_fail self') = Dict.keys (endpoint_fail self)
    /\ Dict.keys (method_fail self') = Dict.keys (method_fail self)
    /\ Dict.keys (method_instance_fail self')
       = Dict.keys (method_instance_fail self).
Proof.
  intros Hreg.
  destruct (registered_inv _ _ _ Hreg) as (se & sm & inst & si & He & Hm & Hi & Hie).
  eexists _, se, sm, si.
  split; [eapply observe_failure_closed; eauto|].
  unfold instance_tally, on_pair; simpl. rewrite Hi, !get_set_same.
  splits; auto.
  - intros e' Hne. now rewrite get_set_other.
  - intros m' Hne. now rewrite get_set_other.
  - intros m' e' Hne.
    destruct (String.eqb_spec m' method) as [->|Hm'].
    + rewrite get_set_same, Hi.
      destruct Hne as [Hne|Hne]; [congruence|]. now rewrite get_set_other.
    + now rewrite get_set_other.
  - apply keys_set_present; eauto using contains_of_get.
  - apply keys_set_present; eauto using contains_of_get.
  - apply keys_set_present; eauto using contains_of_get.
Qed.

Lemma observe_failure_frame_witness :
  registered "A" "a" (one_pair 0 "A" "a" [1%Q]) = true
  /\ exists self',
       observe_failure 2 "A" "a" (one_pair 0 "A" "a" [1%Q]) = (self', Ok tt)
       /\ global_fail self' = Tally 2 (Some 2%Q).
Proof.
  assert (H : registered "A" "a" (one_pair 0 "A" "a" [1%Q]) = true)
    by (vm_compute; reflexivity).
  split; [exact H|].
  destruct (observe_failure_frame 2 "A" "a" _ H)
    as (self' & se & sm & si & H1 & _ & _ & _ & H2 & _).
  exists self'. split; [exact H1 | exact H2].
Defined.

(** X4.  The observations are not atomic.  For an endpoint that
    [endpoint_fail] does not know, [observe_failure] raises
    [KeyError(endpoint)] after it has counted the failure in the global
    tally, and [observe_success] raises it after it has reset the global
    tally; nothing else is changed. *)
Theorem observe_unknown_endpoint (now : Q) (endpoint method : string)
        (self : MultiCauseCircuitBreaker) :
  Dict.get endpoint (endpoint_fail self) = None ->
  observe_failure now endpoint method self
  = (with_global_fail (Tally (count (global_fail self) + 1) (Some now)) self,
     Raise (KeyError endpoint))
  /\ observe_success endpoint method self
     = (with_global_fail fresh self, Raise (KeyError endpoint)).
Proof.
  intros He.
  unfold observe_failure, observe_success, bind, on_global, modify, on_endpoint;
    simpl.
  rewrite He. split; reflexivity.
Qed.

Lemma observe_unknown_endpoint_witness :
  observe_success "B" "a" (one_pair 0 "A" "a" [1%Q])
  = (with_global_fail fresh (one_pair 0 "A" "a" [1%Q]), Raise (KeyError "B")).
Proof.
  assert (H : Dict.get "B" (endpoint_fail (one_pair 0 "A" "a" [1%Q])) = None)
    by (vm_compute; reflexivity).
  exact (proj2 (observe_unknown_endpoint 0 "B" "a" (one_pair 0 "A" "a" [1%Q]) H)).
Defined.

(** X5.  A success erases the failures of its pair: on a registered pair,
    [observe_failure] followed by [observe_success] leaves the breaker that
    [observe_success] alone leaves. *)
Theorem success_erases_failure (now : Q) (endpoint method : string)
        (self : MultiCauseCircuitBreaker) :
  registered endpoint method self = true ->
  (observe_failure now endpoint method ;; observe_success endpoint method)%breaker self
  = observe_success endpoint method self
  /\ snd (observe_success endpoint method self) = Ok tt.
Proof.
  intros Hreg.
  destruct (registered_inv _ _ _ Hreg) as (se & sm & inst & si & He & Hm & Hi & Hie).
  rewrite (bind_ok _ _ _ _ _ (observe_failure_closed now _ _ _ _ _ _ _ He Hm Hi Hie)).
  rewrite (observe_success_closed _ _ self se sm si inst He Hm Hi Hie).
  split; [|reflexivity].
  set (f := fun s : tally => Tally (count s + 1) (Some now)).
  rewrite (observe_success_closed _ _ (on_pair f endpoint method se sm si inst self)
             (f se) (f sm) (f si) (Dict.set endpoint (f si) inst));
    try (unfold on_pair; simpl; apply get_set_same).
  unfold on_pair; simpl. now rewrite !set_set.
Qed.

Lemma success_erases_failure_witness :
  (observe_failure 2 "A" "a" ;; observe_success "A" "a")%breaker
    (one_pair 0 "A" "a" [1%Q])
  = observe_success "A" "a" (one_pair 0 "A" "a" [1%Q]).
Proof.
  assert (H : registered "A" "a" (one_pair 0 "A" "a" [1%Q]) = true)
    by (vm_compute; reflexivity).
  exact (proj1 (success_erases_failure 2 "A" "a" (one_pair 0 "A" "a" [1%Q]) H)).
Defined.

(** ** The order of the checks *)

Lemma select_endpoint_no_sweep (py : interpreter) (now : Q) (rnd : nat)
      (method : string) (endpoints : option (list string))
      (self : MultiCauseCircuitBreaker) :
  sweep_due now self = false ->
  select_endpoint py now rnd method endpoints self
  = (self, choose_endpoint py now rnd method endpoints self).
Proof.
  unfold sweep_due, select_endpoint, bind, reading, ret. now intros ->.
Qed.

(** X6.  The checks come in the order global, method known, method: when no
    sweep is due and the global tally has an effective count [g], then
    (1) with [g] above the threshold every [select_endpoint] raises the
    global [CircuitBreakerOpen], for registered and unregistered methods and
    whatever the candidates; (2) otherwise a method unknown to [method_fail]
    gives [NotConnected]; (3) otherwise a method whose own effective count is
    above the threshold gives the method [CircuitBreakerOpen], before any
    endpoint is looked at.  The breaker is left as it was. *)
Theorem select_endpoint_check_order (py : interpreter) (now : Q) (rnd : nat)
        (method : string) (endpoints : option (list string))
        (self : MultiCauseCircuitBreaker) (g : Z) :
  sweep_due now self = false ->
  effective py now (global_fail self) = Ok g ->
  (MAXIMUM_ERRORS_BEFORE_OPEN < g ->
   select_endpoint py now rnd method endpoints self
   = (self, Raise (CircuitBreakerOpen "global failure rate too high")))
  /\ (g <= MAXIMUM_ERRORS_BEFORE_OPEN ->
      Dict.get method (method_fail self) = None ->
      select_endpoint py now rnd method endpoints self
      = (self, Raise (NotConnected ("no endpoints configured for method: " ++ method))))
  /\ (forall sm c,
        g <= MAXIMUM_ERRORS_BEFORE_OPEN ->
        Dict.get method (method_fail self) = Some sm ->
        effective py now sm = Ok c ->
        MAXIMUM_ERRORS_BEFORE_OPEN < c ->
        select_endpoint py now rnd method endpoints self
        = (self, Raise (CircuitBreakerOpen
                          ("method failure rate too high for method " ++ method)))).
Proof.
  intros Hs Hg. rewrite select_endpoint_no_sweep by exact Hs.
  unfold effective in *. unfold choose_endpoint. cbv zeta. rewrite Hg. cbn [rbind].
  splits.
  - intros Hlt. apply Z.gtb_lt in Hlt. now rewrite Hlt.
  - intros Hle Hm.
    assert (E : (g >? MAXIMUM_ERRORS_BEFORE_OPEN) = false)
      by (rewrite Z.gtb_ltb; now apply Z.ltb_ge).
    rewrite E. unfold Dict.contains. now rewrite Hm.
  - intros sm c Hle Hm Hc Hlt.
    assert (E : (g >? MAXIMUM_ERRORS_BEFORE_OPEN) = false)
      by (rewrite Z.gtb_ltb; now apply Z.ltb_ge).
    rewrite E. unfold Dict.contains, Dict.getitem. rewrite Hm. cbn [negb rbind].
    rewrite Hc. cbn [rbind]. apply Z.gtb_lt in Hlt. now rewrite Hlt.
Qed.

Lemma select_endpoint_check_order_witness :
  select_endpoint Python3 2 0 "unknown" (Some ["X"])
                  (one_pair 0 "A" "a" (repeat 1%Q 8))
  = (one_pair 0 "A" "a" (repeat 1%Q 8),
     Raise (CircuitBreakerOpen "global failure rate too high")).
Proof.
  assert (Hs : sweep_due 2 (one_pair 0 "A" "a" (repeat 1%Q 8)) = false)
    by (vm_compute; reflexivity).
  assert (Hg : effective Python3 2 (global_fail (one_pair 0 "A" "a" (repeat 1%Q 8)))
               = Ok 8) by (vm_compute; reflexivity).
  assert (Hlt : MAXIMUM_ERRORS_BEFORE_OPEN < 8) by (vm_compute; reflexivity).
  exact (proj1 (select_endpoint_check_order Python3 2 0 "unknown" (Some ["X"])
                  _ 8 Hs Hg) Hlt).
Defined.

(** ** Cooldown *)

Lemma cleanup_pair_kept (py : interpreter) (now : Q) (endpoint method : string)
      (c : Z) (t cleaned : Q) :
  (now - CLEANUP_INTERVAL <= t)%Q ->
  _cleanup py now (pair_state endpoint method c (Some t) cleaned)
  = (pair_state endpoint method c (Some t) now, Ok tt).
Proof.
  intros Hrecent.
  assert (Hkeep : Qlt_bool t (now - CLEANUP_INTERVAL) = false)
    by now apply Qlt_bool_false.
  unfold _cleanup. remember (now - CLEANUP_INTERVAL)%Q as cb.
  unfold pair_state.
  destruct py;
    repeat (progress (unfold bind, reading, modify, ret, Dict.getitem,
                        instance_size; simpl;
                      rewrite ?String.eqb_refl, ?Hkeep));
    reflexivity.
Qed.

Lemma choose_endpoint_pair_cooled (py : interpreter) (now : Q) (rnd : nat)
      (endpoint method : string) (c : Z) (t cleaned : Q) :
  (t <= now - COOLDOWN_SECONDS)%Q ->
  choose_endpoint py now rnd method None
                  (pair_state endpoint method c (Some t) cleaned)
  = Ok endpoint.
Proof.
  intros Hold. apply Qle_bool_iff in Hold.
  unfold choose_endpoint, rate_endpoints, sort_key,
    apply_ignore_before, Dict.getitem, Dict.contains, pair_state.
  remember (now - COOLDOWN_SECONDS)%Q as ib.
  unfold _adjust_endpoint_rating, shortlist, random_choice.
  assert (Hz : (0 >? MAXIMUM_ERRORS_BEFORE_OPEN) = false) by reflexivity.
  repeat (progress
            (cbn [global_fail method_fail endpoint_fail method_instance_fail
                  last_time count rbind Dict.get adjust_endpoint_rating negb
                  Dict.keys map fst dict_comprehension Dict.set Dict.is_empty
                  sorted fold_right insert_sorted List.length firstn
                  nth_error Nat.sub Nat.div Nat.divmod Nat.add];
             rewrite ?String.eqb_refl, ?Hold, ?Hz, ?Z.max_id, ?Nat.mod_1_r));
    reflexivity.
Qed.

(** X7.  Failures age out together.  For the one registered pair, however
    many failures it has: once the last of them is [COOLDOWN_SECONDS] old or
    older (and not yet older than [CLEANUP_INTERVAL]), [select_endpoint]
    returns the endpoint again, on both interpreters; the tallies keep their
    counts. *)
Theorem select_endpoint_after_cooldown (py : interpreter) (t0 now : Q) (rnd : nat)
        (endpoint method : string) (times : list Q) (last : Q) :
  (last <= now - COOLDOWN_SECONDS)%Q ->
  (now - CLEANUP_INTERVAL <= last)%Q ->
  select_endpoint py now rnd method None
                  (one_pair t0 endpoint method (times ++ [last])%list)
  = (pair_state endpoint method (Z.of_nat (List.length (times ++ [last])%list))
                (Some last) (if Qlt_bool t0 (now - CLEANUP_INTERVAL) then now else t0),
     Ok endpoint).
Proof.
  intros Hold Hkept. rewrite one_pair_failed.
  unfold select_endpoint, bind at 1, reading, ret.
  cbn [last_cleanup pair_state].
  destruct (Qlt_bool t0 (now - CLEANUP_INTERVAL)).
  - fold (pair_state endpoint method
                     (Z.of_nat (List.length (times ++ [last])%list)) (Some last) t0).
    rewrite cleanup_pair_kept by exact Hkept.
    now rewrite choose_endpoint_pair_cooled.
  - fold (pair_state endpoint method
                     (Z.of_nat (List.length (times ++ [last])%list)) (Some last) t0).
    now rewrite choose_endpoint_pair_cooled.
Qed.

Lemma select_endpoint_after_cooldown_witness :
  snd (select_endpoint Python3 121 0 "a" None (one_pair 0 "A" "a" (repeat 1%Q 10)))
  = Ok "A".
Proof.
  assert (H1 : (1 <= 121 - COOLDOWN_SECONDS)%Q) by (vm_compute; discriminate).
  assert (H2 : (121 - CLEANUP_INTERVAL <= 1)%Q) by (vm_compute; discriminate).
  exact (f_equal snd
           (select_endpoint_after_cooldown Python3 0 121 0 "A" "a" (repeat 1%Q 9) 1 H1 H2)).
Defined.

(** ** Registrations expire *)

Lemma one_pair_state (t0 : Q) (endpoint method : string) (times : list Q) :
  one_pair t0 endpoint method times
  = pair_state endpoint method (Z.of_nat (List.length times))
               (last (map Some times) None) t0.
Proof.
  destruct times as [|t times].
  - apply one_pair_fresh.
  - destruct (@exists_last _ (t :: times)) as (l & a & E); [discriminate|].
    rewrite E, one_pair_failed, map_app. simpl map. now rewrite last_last.
Qed.

Lemma Qlt_bool_true (a b : Q) : (a < b)%Q -> Qlt_bool a b = true.
Proof.
  intros H. unfold Qlt_bool. now rewrite Qle_bool_false.
Qed.

(** X8.  A registration does not outlive the sweep.  For the one registered
    pair, whether it never failed or failed any number of times: when the
    sweep is due and the time of the last failure ([0] when there was none)
    is older than [CLEANUP_INTERVAL], [select_endpoint] does not return the
    endpoint.  Python 2: the sweep empties the three maps and
    [NotConnected] is raised.  Python 3: the first [pop] stops the sweep
    with [RuntimeError], only [endpoint_fail] has lost its entry. *)
Theorem stale_pair_not_selected (t0 now : Q) (rnd : nat) (endpoint method : string)
        (times : list Q) :
  (t0 < now - CLEANUP_INTERVAL)%Q ->
  (or0 (last (map Some times) None) < now - CLEANUP_INTERVAL)%Q ->
  select_endpoint Python2 now rnd method None (one_pair t0 endpoint method times)
  = (Breaker (Tally (Z.of_nat (List.length times)) (last (map Some times) None))
             [] [] [] _adjust_endpoint_rating now,
     Raise (NotConnected ("no endpoints configured for method: " ++ method)))
  /\ select_endpoint Python3 now rnd method None (one_pair t0 endpoint method times)
     = (with_endpoint_fail [] (one_pair t0 endpoint method times),
        Raise RuntimeError).
Proof.
  intros Hdue Hstale. rewrite one_pair_state.
  set (c := Z.of_nat (List.length times)). set (x := last (map Some times) None) in *.
  assert (Hd : Qlt_bool t0 (now - CLEANUP_INTERVAL) = true) by now apply Qlt_bool_true.
  assert (Hx : Qlt_bool (or0 x) (now - CLEANUP_INTERVAL) = true)
    by now apply Qlt_bool_true.
  assert (Hg : apply_ignore_before Python2 (now - COOLDOWN_SECONDS) (Tally c x) = Ok 0).
  { unfold apply_ignore_before. cbn [last_time]. destruct x as [t|]; [|reflexivity].
    assert (E : Qle_bool t (now - COOLDOWN_SECONDS) = true).
    { apply Qle_bool_iff. simpl or0 in Hstale.
      unfold CLEANUP_INTERVAL, COOLDOWN_SECONDS in *. lra. }
    now rewrite E. }
  unfold select_endpoint, bind at 1, reading, ret.
  cbn [last_cleanup pair_state]. rewrite Hd.
  unfold _cleanup. remember (now - CLEANUP_INTERVAL)%Q as cb.
  unfold pair_state. split.
  - repeat (progress (unfold bind, reading, modify, ret, Dict.getitem,
                        instance_size, on_instances_pop; simpl;
                      rewrite ?String.eqb_refl, ?Hx, ?Hd)).
    unfold with_last_cleanup, with_method_instance_fail, with_method_fail,
      with_endpoint_fail.
    cbn [global_fail endpoint_fail method_fail method_instance_fail
         adjust_endpoint_rating last_cleanup].
    unfold choose_endpoint. cbv zeta. cbn [global_fail]. rewrite Hg.
    reflexivity.
  - repeat (progress (unfold bind, reading, modify, ret, Dict.getitem,
                        instance_size, on_instances_pop; simpl;
                      rewrite ?String.eqb_refl, ?Hx, ?Hd)).
    reflexivity.
Qed.

Lemma stale_pair_not_selected_witness :
  snd (select_endpoint Python2 4000 0 "a" None (one_pair 0 "A" "a" []))
  = Raise (NotConnected "no endpoints configured for method: a").
Proof.
  assert (H1 : (0 < 4000 - CLEANUP_INTERVAL)%Q) by (vm_compute; reflexivity).
  assert (H2 : (or0 (last (map Some (@nil Q)) None) < 4000 - CLEANUP_INTERVAL)%Q)
    by (vm_compute; reflexivity).
  exact (f_equal snd (proj1 (stale_pair_not_selected 0 4000 0 "A" "a" [] H1 H2))).
Defined.

(** ** Candidates and the shortlist *)

Lemma dict_comprehension_ok_all (value : string -> result Z) :
  forall l acc d,
    dict_comprehension value l acc = Ok d ->
    forall k, In k l -> exists v, value k = Ok v.
Proof.
  induction l as [|x l IH]; intros acc d H k Hk; [destruct Hk|].
  simpl in H. destruct (value x) as [v|e] eqn:E; cbn [rbind] in H; [|discriminate].
  destruct Hk as [<-|Hk]; [eauto|]. eapply IH; eauto.
Qed.

(** X9.  A candidate that was never registered makes the call fail: when the
    list of candidates handed to [select_endpoint] holds an endpoint that
    [endpoint_fail] does not know, the call raises, whichever the other
    candidates are; no endpoint is returned. *)
Theorem unknown_candidate_raises (py : interpreter) (now : Q) (rnd : nat)
        (method : string) (candidates : list string) (c : string)
        (self self' : MultiCauseCircuitBreaker) (r : result string) :
  In c candidates ->
  select_endpoint py now rnd method (Some candidates) self = (self', r) ->
  Dict.get c (endpoint_fail self') = None ->
  exists ex, r = Raise ex.
Proof.
  intros Hin H Hc.
  apply select_endpoint_inv in H as [(ex & -> & _)|H]; [eauto|].
  destruct r as [e|ex]; [|eauto]. exfalso.
  symmetry in H. apply choose_endpoint_ok_inv in H as (ratings & _ & _ & _ & _ & _ & Hr & _).
  unfold rate_endpoints in Hr.
  destruct candidates as [|x l]; [destruct Hin|].
  cbn [rbind] in Hr.
  destruct (dict_comprehension _ (x :: l) []) as [d|] eqn:Hd; [|discriminate].
  destruct (dict_comprehension_ok_all _ _ _ _ Hd c Hin) as (v & Hv).
  unfold sort_key, Dict.getitem in Hv. rewrite Hc in Hv. discriminate.
Qed.

Lemma unknown_candidate_raises_witness :
  exists ex,
    snd (select_endpoint Python3 2 0 "a" (Some ["A"; "Z"]) (one_pair 0 "A" "a" [1%Q]))
    = Raise ex.
Proof.
  assert (Hin : In "Z" ["A"; "Z"]) by (simpl; auto).
  assert (Hc : Dict.get "Z" (endpoint_fail (one_pair 0 "A" "a" [1%Q])) = None)
    by (vm_compute; reflexivity).
  assert (H : select_endpoint Python3 2 0 "a" (Some ["A"; "Z"]) (one_pair 0 "A" "a" [1%Q])
              = (one_pair 0 "A" "a" [1%Q], Raise (KeyError "Z")))
    by (vm_compute; reflexivity).
  destruct (unknown_candidate_raises Python3 2 0 "a" ["A"; "Z"] "Z" _ _ _ Hin H Hc)
    as (ex & [= <-]).
  exists (KeyError "Z"). now rewrite H.
Defined.

Lemma keys_length {V : Type} (d : Dict.t V) :
  List.length (Dict.keys d) = List.length d.
Proof. unfold Dict.keys. apply length_map. Qed.

Lemma shortlist_length (ratings : Dict.t Z) :
  ratings <> [] ->
  List.length (shortlist ratings)
  = (1 + (List.length ratings - 1) / OVERPROVISIONING_FACTOR)%nat.
Proof.
  intros Hne. unfold shortlist. cbv zeta.
  rewrite sorted_length, keys_length, length_firstn, sorted_length, keys_length.
  assert (0 < List.length ratings)%nat by (destruct ratings; simpl; [congruence|lia]).
  apply Nat.min_l.
  unfold OVERPROVISIONING_FACTOR.
  pose proof (Nat.Div0.div_le_upper_bound (List.length ratings - 1) 2
                (List.length ratings - 1)).
  lia.
Qed.

(** X10.  The draw cannot fail: for a rating map that is not empty, the
    shortlist holds exactly 1 + floor((N-1)/OVERPROVISIONING_FACTOR)
    endpoints, N the size of the map, at least one and at most N, all of them
    keys of the map, and [random.choice] returns one of them for every
    outcome of the draw ([IndexError] is never raised). *)
Theorem shortlist_draw (ratings : Dict.t Z) (rnd : nat) :
  ratings <> [] ->
  List.length (shortlist ratings)
  = (1 + (List.length ratings - 1) / OVERPROVISIONING_FACTOR)%nat
  /\ (1 <= List.length (shortlist ratings) <= List.length ratings)%nat
  /\ incl (shortlist ratings) (Dict.keys ratings)
  /\ exists e, random_choice rnd (shortlist ratings) = Ok e
               /\ In e (shortlist ratings).
Proof.
  intros Hne. pose proof (shortlist_length ratings Hne) as Hlen.
  assert (Hincl : incl (shortlist ratings) (Dict.keys ratings)).
  { intros x Hx. unfold shortlist in Hx. cbv zeta in Hx.
    eapply Permutation_in; [symmetry; apply sorted_perm|].
    match type of Hx with
    | In x (firstn ?n ?l) => rewrite <- (firstn_skipn n l)
    end.
    apply in_or_app. now left. }
  splits; auto.
  - rewrite Hlen. lia.
  - unfold shortlist. cbv zeta. rewrite length_firstn, !sorted_length, keys_length.
    lia.
  - destruct (random_choice_total rnd (shortlist ratings)) as (e & He).
    + intros E. rewrite E in Hlen. simpl in Hlen. lia.
    + exists e. split; [exact He|]. eapply random_choice_in; eauto.
Qed.

Lemma shortlist_draw_witness :
  List.length (shortlist [("B", 0); ("A", 0); ("C", 1)]) = 2%nat.
Proof.
  assert (H : [("B", 0); ("A", 0); ("C", 1)] <> (@nil (string * Z)))
    by discriminate.
  exact (proj1 (shortlist_draw [("B", 0); ("A", 0); ("C", 1)] 0 H)).
Defined.

Lemma StronglySorted_app_le {A : Type} (R : A -> A -> Prop) (l1 l2 : list A) :
  StronglySorted R (l1 ++ l2)%list ->
  forall x y, In x l1 -> In y l2 -> R x y.
Proof.
  induction l1 as [|a l1 IH]; intros Hs x y Hx Hy; [destruct Hx|].
  simpl in Hs. apply StronglySorted_inv in Hs as [Hs Hall].
  destruct Hx as [<-|Hx].
  - rewrite Forall_forall in Hall. apply Hall. apply in_or_app. now right.
  - eapply IH; eauto.
Qed.

(** X11.  The shortlist is the best-rated slice: no endpoint of the rating
    map that was left out of the shortlist has a lower rating than an
    endpoint that is in it. *)
Theorem shortlist_best_rated (ratings : Dict.t Z) (x y : string) :
  In x (shortlist ratings) ->
  In y (Dict.keys ratings) ->
  ~ In y (shortlist ratings) ->
  rating ratings x <= rating ratings y.
Proof.
  unfold shortlist, rating. cbv zeta.
  set (l := sorted (Dict.keys ratings) (ratings_get ratings)).
  set (n := (1 + (List.length l - 1) / OVERPROVISIONING_FACTOR)%nat).
  intros Hx Hy Hny.
  assert (Hl : In y l) by (eapply Permutation_in; [apply sorted_perm|exact Hy]).
  rewrite <- (firstn_skipn n l) in Hl. apply in_app_or in Hl as [Hl|Hl]; [contradiction|].
  pose proof (sorted_ascending (ratings_get ratings) (Dict.keys ratings)) as Hs.
  fold l in Hs. rewrite <- (firstn_skipn n l) in Hs.
  exact (StronglySorted_app_le _ _ _ Hs x y Hx Hl).
Qed.

Lemma shortlist_best_rated_witness :
  rating [("B", 3); ("A", 0); ("C", 1)] "A" <= rating [("B", 3); ("A", 0); ("C", 1)] "B".
Proof.
  assert (H1 : In "A" (shortlist [("B", 3); ("A", 0); ("C", 1)]))
    by (vm_compute; auto).
  assert (H2 : In "B" (Dict.keys [("B", 3); ("A", 0); ("C", 1)]))
    by (vm_compute; auto).
  assert (H3 : ~ In "B" (shortlist [("B", 3); ("A", 0); ("C", 1)])).
  { vm_compute. intros [H|[H|[]]]; discriminate H. }
  exact (shortlist_best_rated _ "A" "B" H1 H2 H3).
Defined.

(** ** What a selection changes *)

Lemma cleanup_keeps_adjuster (py : interpreter) (now : Q)
      (self self' : MultiCauseCircuitBreaker) (r : result unit) :
  _cleanup py now self = (self', r) ->
  adjust_endpoint_rating self' = adjust_endpoint_rating self.
Proof.
  intros H.
  apply (keeps_cleanup
           (fun s => adjust_endpoint_rating s = adjust_endpoint_rating self)) in H;
    auto.
Qed.

(** X12.  A selection records nothing.  However [select_endpoint] ends, the
    global tally and the adjuster are as before (the sweep does not reach the
    global tally); when no sweep is due the whole breaker is as before; and
    when the call returns an endpoint after a sweep was due, [last_cleanup]
    is the clock of the call. *)
Theorem select_endpoint_records_nothing (py : interpreter) (now : Q) (rnd : nat)
        (method : string) (endpoints : option (list string))
        (self self' : MultiCauseCircuitBreaker) (r : result string) :
  select_endpoint py now rnd method endpoints self = (self', r) ->
  global_fail self' = global_fail self
  /\ adjust_endpoint_rating self' = adjust_endpoint_rating self
  /\ (sweep_due now self = false -> self' = self)
  /\ (forall e, sweep_due now self = true -> r = Ok e -> last_cleanup self' = now).
Proof.
  unfold select_endpoint, sweep_due, bind, reading, ret.
  destruct (Qlt_bool (last_cleanup self) (now - CLEANUP_INTERVAL)).
  - destruct (_cleanup py now self) as [s1 [[]|ex]] eqn:Hc; intros [= <- <-].
    + splits; eauto using cleanup_keeps_global, cleanup_keeps_adjuster;
        [discriminate|].
      intros e _ _. unfold _cleanup in Hc. unfold bind at 1 in Hc.
      match type of Hc with
      | (let (_, _) := ?c in _) = _ => destruct c as [s2 [[]|e2]]
      end; [|discriminate].
      unfold bind at 1 in Hc.
      match type of Hc with
      | (let (_, _) := ?c in _) = _ => destruct c as [s3 [[]|e3]]
      end; [|discriminate].
      unfold modify in Hc. injection Hc as <-. reflexivity.
    + splits; eauto using cleanup_keeps_global, cleanup_keeps_adjuster;
        discriminate.
  - intros [= <- <-]. splits; auto. discriminate.
Qed.

Lemma select_endpoint_records_nothing_witness :
  global_fail (fst (select_endpoint Python2 99999 0 "1" None before_sweep))
  = global_fail before_sweep.
Proof.
  exact (proj1 (select_endpoint_records_nothing Python2 99999 0 "1" None
                  before_sweep _ _ (surjective_pairing _))).
Defined.

Lemma effective_python3_timed (now : Q) (s : tally) (c : Z) :
  effective Python3 now s = Ok c -> timed s.
Proof.
  unfold effective, apply_ignore_before, timed.
  destruct (last_time s); [discriminate|discriminate].
Qed.

(** X13.  On Python 3 only tallies that carry a time can be compared: when
    [select_endpoint] returns an endpoint, the global tally, the tally of the
    method, the tally of the endpoint and the tally of the pair all carry the
    time of a failure.  So an endpoint is returned only after the endpoint,
    the method and the pair have each failed since they were registered or
    last reset by a success. *)
Theorem python3_selects_only_failed (now : Q) (rnd : nat)
        (method : string) (endpoints : option (list string))
        (self self' : MultiCauseCircuitBreaker) (e : string) :
  select_endpoint Python3 now rnd method endpoints self = (self', Ok e) ->
  timed (global_fail self')
  /\ (exists sm, Dict.get method (method_fail self') = Some sm /\ timed sm)
  /\ (exists se, Dict.get e (endpoint_fail self') = Some se /\ timed se)
  /\ (exists si, instance_tally method e self' = Some si /\ timed si).
Proof.
  intros H. apply select_endpoint_inv in H as [(ex & [=] & _)|H].
  symmetry in H. pose proof H as H0.
  apply choose_endpoint_ok_inv in H0
    as (ratings & se & inst & si & ce & ci & _ & _ & _ & He & Hce & _ & Hi & Hie & Hci & _).
  unfold choose_endpoint in H. cbv zeta in H.
  rstep H. rstep H. rstep H. rstep H. rstep H.
  splits.
  - eapply effective_python3_timed; eauto.
  - apply getitem_ok in E2. eexists. split; [exact E2|].
    eapply effective_python3_timed; eauto.
  - eauto using effective_python3_timed.
  - exists si. unfold instance_tally. rewrite Hi.
    eauto using effective_python3_timed.
Qed.

Lemma python3_selects_only_failed_witness :
  timed (global_fail two_tied).
Proof.
  assert (H : select_endpoint Python3 100 0 "a" None two_tied = (two_tied, Ok "B"))
    by (vm_compute; reflexivity).
  exact (proj1 (python3_selects_only_failed 100 0 "a" None two_tied two_tied "B" H)).
Defined.

(** ** The sweep, interpreter by interpreter *)

Section DictMoreFacts.
Context {V : Type}.
Implicit Types (d pre : Dict.t V) (k : string) (v : V).

Lemma length_pop k v d :
  Dict.get k d = Some v -> S (List.length (Dict.pop k d)) = List.length d.
Proof.
  induction d as [|[k' v'] d IH]; simpl; [discriminate|].
  destruct (String.eqb k k'); [reflexivity|].
  intros H. simpl. now rewrite IH.
Qed.

Lemma in_keys_get k d : In k (Dict.keys d) -> exists v, Dict.get k d = Some v.
Proof.
  unfold Dict.keys. induction d as [|[k' v'] d IH]; simpl; [intros []|].
  destruct (String.eqb_spec k k') as [->|Hne]; [eauto|].
  intros [E|H]; [congruence|auto].
Qed.

Lemma get_in_keys k v d : Dict.get k d = Some v -> In k (Dict.keys d).
Proof.
  unfold Dict.keys. induction d as [|[k' v'] d IH]; simpl; [discriminate|].
  destruct (String.eqb_spec k k') as [->|Hne]; [auto|]. intros H. right. auto.
Qed.

Lemma get_app_notin k pre d :
  ~ In k (Dict.keys pre) -> Dict.get k (pre ++ d)%list = Dict.get k d.
Proof.
  unfold Dict.keys. induction pre as [|[k' v'] pre IH]; simpl; [reflexivity|].
  intros H. destruct (String.eqb_spec k k') as [->|Hne]; [tauto|].
  apply IH. tauto.
Qed.

Lemma pop_app_notin k pre d :
  ~ In k (Dict.keys pre) -> Dict.pop k (pre ++ d)%list = (pre ++ Dict.pop k d)%list.
Proof.
  unfold Dict.keys. induction pre as [|[k' v'] pre IH]; simpl; [reflexivity|].
  intros H. destruct (String.eqb_spec k k') as [->|Hne]; [tauto|].
  rewrite IH; tauto.
Qed.

Lemma get_pop_nodup k d : NoDup (Dict.keys d) -> Dict.get k (Dict.pop k d) = None.
Proof.
  unfold Dict.keys. induction d as [|[k' v'] d IH]; simpl; [reflexivity|].
  intros Hnd. apply NoDup_cons_iff in Hnd as [Hnotin Hnd].
  destruct (String.eqb_spec k k') as [->|Hne].
  - destruct (Dict.get k' d) as [v|] eqn:E; [|reflexivity].
    apply get_in_keys in E. contradiction.
  - simpl. destruct (String.eqb_spec k k'); [contradiction|]. auto.
Qed.
End DictMoreFacts.

Lemma for_keys_python3_stops (size : MultiCauseCircuitBreaker -> nat) (n : nat)
      (ks : list string) (body : string -> M unit) (s : MultiCauseCircuitBreaker) :
  size s <> n ->
  for_keys Python3 size n ks body s = (s, Raise RuntimeError).
Proof.
  intros H. apply Nat.eqb_neq in H. destruct ks; simpl; now rewrite H.
Qed.

(** On Python 3 a loop over the keys that ends normally ran bodies that
    changed nothing, when every body that changes the breaker changes the
    size of the dict. *)
Lemma for_keys_python3_ok (P : MultiCauseCircuitBreaker -> Prop)
      (size : MultiCauseCircuitBreaker -> nat) (n : nat) (body : string -> M unit) :
  (forall k s s', P s -> body k s = (s', Ok tt) -> s' = s \/ size s' <> size s) ->
  forall ks s s',
    P s -> size s = n ->
    for_keys Python3 size n ks body s = (s', Ok tt) -> s' = s.
Proof.
  intros Hbody. induction ks as [|k ks IH]; intros s s' HP Hn; simpl.
  - rewrite <- Hn, Nat.eqb_refl. now intros [= <-].
  - rewrite <- Hn, Nat.eqb_refl. unfold bind.
    destruct (body k s) as [s1 [[]|e]] eqn:Hb; [|discriminate].
    destruct (Hbody k s s1 HP Hb) as [->|Hne].
    + rewrite Hn. now apply IH.
    + rewrite for_keys_python3_stops by exact Hne. discriminate.
Qed.

(** X14.  On Python 3 the sweep removes nothing: when [_cleanup] ends
    normally, the breaker is as before but for [last_cleanup], which is the
    clock of the sweep.  (A sweep that finds something to remove does not end
    normally, see the next property.) *)
Theorem python3_sweep_removes_nothing (now : Q)
        (self self' : MultiCauseCircuitBreaker) :
  NoDup (Dict.keys (method_instance_fail self)) ->
  _cleanup Python3 now self = (self', Ok tt) ->
  self' = with_last_cleanup now self.
Proof.
  intros Hnd. unfold _cleanup. unfold bind at 1.
  match goal with
  | |- context [for_keys ?p ?sz ?n ?ks ?body self] =>
      destruct (for_keys p sz n ks body self) as [s1 [[]|e1]] eqn:L1
  end; [|discriminate].
  apply (for_keys_python3_ok (fun _ => True)) in L1; auto.
  2:{ intros k s s' _. unfold bind, reading, modify, ret.
      destruct (Dict.getitem k (endpoint_fail s)) as [v|] eqn:G; [|discriminate].
      destruct (Qlt_bool _ _); intros [= <-]; [right|now left].
      simpl. apply getitem_ok in G. pose proof (length_pop _ _ _ G). lia. }
  subst s1. unfold bind at 1.
  match goal with
  | |- context [for_keys ?p ?sz ?n ?ks ?body self] =>
      destruct (for_keys p sz n ks body self) as [s2 [[]|e2]] eqn:L2
  end; [|discriminate].
  apply (for_keys_python3_ok
           (fun s => NoDup (Dict.keys (method_instance_fail s)))) in L2; auto.
  { subst s2. unfold modify. now intros [= <-]. }
  intros method s s' HP. unfold bind at 1, reading at 1.
  destruct (Dict.getitem method (method_fail s)) as [sm|] eqn:G; [|discriminate].
  apply getitem_ok in G.
  assert (Hinner : forall t t',
             NoDup (Dict.keys (method_instance_fail t)) ->
             (inst <- reading (fun self => Dict.getitem method (method_instance_fail self)) ;;
              for_keys Python3 (instance_size method) (List.length inst) (Dict.keys inst)
                (fun endpoint =>
                   s <- reading (fun self =>
                          (inst <~ Dict.getitem method (method_instance_fail self) ;;
                           Dict.getitem endpoint inst)%result) ;;
                   if Qlt_bool (or0 (last_time s)) (now - CLEANUP_INTERVAL)
                   then
                     on_instances_pop method endpoint ;;
                     inst <- reading (fun self =>
                               Dict.getitem method (method_instance_fail self)) ;;
                     if Dict.is_empty inst
                     then modify (fun self =>
                            with_method_instance_fail
                              (Dict.pop method (method_instance_fail self)) self)
                     else ret tt
                   else ret tt))%breaker t = (t', Ok tt) ->
             t' = t).
  { intros t t' HPt. unfold bind at 1, reading at 1.
    destruct (Dict.getitem method (method_instance_fail t)) as [inst|] eqn:Gi;
      [|discriminate].
    apply getitem_ok in Gi. intros L.
    apply (for_keys_python3_ok
             (fun s => NoDup (Dict.keys (method_instance_fail s)))) in L; auto.
    2:{ unfold instance_size. now rewrite Gi. }
    clear L. intros k u u' HPu. unfold bind at 1, reading at 1.
    destruct (Dict.getitem method (method_instance_fail u)) as [iu|] eqn:Gu;
      cbn [rbind]; [|discriminate].
    apply getitem_ok in Gu.
    destruct (Dict.getitem k iu) as [sk|] eqn:Gk; [|discriminate].
    apply getitem_ok in Gk.
    destruct (Qlt_bool _ _); [|intros [= <-]; now left].
    unfold bind, on_instances_pop, reading, modify, ret. rewrite Gu.
    cbn [method_instance_fail with_method_instance_fail].
    unfold Dict.getitem. rewrite get_set_same.
    pose proof (length_pop _ _ _ Gk) as Hlen.
    destruct (Dict.is_empty (Dict.pop k iu)); intros [= <-]; right;
      unfold instance_size; cbn [method_instance_fail with_method_instance_fail];
      rewrite Gu.
    - rewrite get_pop_nodup; [lia|].
      rewrite keys_set_present; eauto using contains_of_get.
    - rewrite get_set_same. lia. }
  unfold bind at 1.
  destruct (Qlt_bool (or0 (last_time sm)) (now - CLEANUP_INTERVAL)).
  - unfold modify at 1. intros L. apply Hinner in L; [|exact HP].
    subst s'. right. simpl. pose proof (length_pop _ _ _ G). lia.
  - unfold ret at 1. intros L. apply Hinner in L; [|exact HP]. now left.
Qed.

Lemma python3_sweep_removes_nothing_witness :
  _cleanup Python3 4000 (one_pair 0 "A" "a" [3990%Q])
  = (with_last_cleanup 4000 (one_pair 0 "A" "a" [3990%Q]), Ok tt).
Proof.
  assert (Hnd : NoDup (Dict.keys (method_instance_fail (one_pair 0 "A" "a" [3990%Q])))).
  { vm_compute. repeat constructor. intros []. }
  assert (H : _cleanup Python3 4000 (one_pair 0 "A" "a" [3990%Q])
              = (fst (_cleanup Python3 4000 (one_pair 0 "A" "a" [3990%Q])), Ok tt))
    by (vm_compute; reflexivity).
  exact (eq_trans H (f_equal (fun x => (x, Ok tt))
                             (python3_sweep_removes_nothing 4000 _ _ Hnd H))).
Defined.

(** The first loop of the sweep on Python 3, from any point of the
    iteration on: it raises when one of the keys still to come is expired. *)
Lemma python3_endpoint_loop_raises (now : Q) (n : nat) :
  forall ks s,
    List.length (endpoint_fail s) = n ->
    (forall k, In k ks -> exists v, Dict.get k (endpoint_fail s) = Some v) ->
    (exists k v, In k ks /\ Dict.get k (endpoint_fail s) = Some v
                 /\ expired now v = true) ->
    exists s',
      for_keys Python3 (fun s => List.length (endpoint_fail s)) n ks
        (fun endpoint =>
           s <- reading (fun self => Dict.getitem endpoint (endpoint_fail self)) ;;
           if Qlt_bool (or0 (last_time s)) (now - CLEANUP_INTERVAL)
           then modify (fun self =>
                  with_endpoint_fail (Dict.pop endpoint (endpoint_fail self)) self)
           else ret tt) s
      = (s', Raise RuntimeError).
Proof.
  induction ks as [|k ks IH]; intros s Hn Hall (k0 & v0 & Hin & Hget & Hexp);
    [destruct Hin|].
  simpl. rewrite Hn, Nat.eqb_refl.
  destruct (Hall k (or_introl eq_refl)) as (v & Hv).
  unfold bind at 1. unfold bind at 1, reading at 1, Dict.getitem. rewrite Hv.
  fold (expired now v). destruct (expired now v) eqn:Ev.
  - unfold modify. rewrite for_keys_python3_stops; [eauto|].
    simpl. pose proof (length_pop _ _ _ Hv). lia.
  - unfold ret. apply IH; auto.
    + intros k' Hk'. apply Hall. now right.
    + exists k0, v0. destruct Hin as [->|Hin]; [congruence|]. auto.
Qed.

(** X15.  On Python 3 the sweep cannot remove anything: when a sweep is due
    and some endpoint has an expired tally (its last failure older than
    [CLEANUP_INTERVAL], or no failure at all and the clock above
    [CLEANUP_INTERVAL]), [select_endpoint] raises [RuntimeError], for every
    method and every candidate list. *)
Theorem python3_sweep_raises (now : Q) (rnd : nat) (method : string)
        (endpoints : option (list string)) (self : MultiCauseCircuitBreaker)
        (k : string) (v : tally) :
  sweep_due now self = true ->
  Dict.get k (endpoint_fail self) = Some v ->
  expired now v = true ->
  exists self',
    select_endpoint Python3 now rnd method endpoints self
    = (self', Raise RuntimeError).
Proof.
  intros Hdue Hk Hexp. unfold sweep_due in Hdue.
  unfold select_endpoint, bind at 1. rewrite Hdue.
  unfold _cleanup, bind at 1.
  destruct (python3_endpoint_loop_raises now (List.length (endpoint_fail self))
              (Dict.keys (endpoint_fail self)) self eq_refl) as (s' & Hs').
  - intros k'. apply in_keys_get.
  - exists k, v. eauto using get_in_keys.
  - rewrite Hs'. eauto.
Qed.

Lemma python3_sweep_raises_witness :
  exists self',
    select_endpoint Python3 4000 0 "a" None (one_pair 0 "A" "a" [])
    = (self', Raise RuntimeError).
Proof.
  assert (H1 : sweep_due 4000 (one_pair 0 "A" "a" []) = true)
    by (vm_compute; reflexivity).
  assert (H2 : Dict.get "A" (endpoint_fail (one_pair 0 "A" "a" [])) = Some fresh)
    by (vm_compute; reflexivity).
  assert (H3 : expired 4000 fresh = true) by (vm_compute; reflexivity).
  exact (python3_sweep_raises 4000 0 "a" None _ "A" fresh H1 H2 H3).
Defined.

(** The first loop of the sweep on Python 2, from any point of the
    iteration on: [pre] are the entries already kept, [suf] the entries
    still to come. *)
Lemma python2_endpoint_loop (now : Q) (n : nat) :
  forall suf pre s,
    endpoint_fail s = (pre ++ suf)%list ->
    NoDup (Dict.keys (pre ++ suf)%list) ->
    for_keys Python2 (fun s => List.length (endpoint_fail s)) n (Dict.keys suf)
      (fun endpoint =>
         s <- reading (fun self => Dict.getitem endpoint (endpoint_fail self)) ;;
         if Qlt_bool (or0 (last_time s)) (now - CLEANUP_INTERVAL)
         then modify (fun self =>
                with_endpoint_fail (Dict.pop endpoint (endpoint_fail self)) self)
         else ret tt) s
    = (with_endpoint_fail
         (pre ++ filter (fun kv => negb (expired now (snd kv))) suf)%list s, Ok tt).
Proof.
  induction suf as [|[k v] suf IH]; intros pre s Hs Hnd.
  - simpl. rewrite app_nil_r in *. rewrite <- Hs. now destruct s.
  - cbn [Dict.keys map fst for_keys].
    assert (Hnotin : ~ In k (Dict.keys pre)).
    { unfold Dict.keys in *. rewrite map_app in Hnd. simpl in Hnd.
      apply NoDup_remove_2 in Hnd. intros H. apply Hnd. apply in_or_app. now left. }
    assert (Hnd' : NoDup (Dict.keys (pre ++ suf)%list)).
    { unfold Dict.keys in *. rewrite map_app in *. simpl in Hnd.
      now apply NoDup_remove_1 in Hnd. }
    unfold bind at 1. unfold bind at 1, reading at 1, Dict.getitem.
    rewrite Hs, get_app_notin by exact Hnotin.
    cbn [Dict.get]. rewrite String.eqb_refl.
    cbn [filter snd]. fold (expired now v).
    destruct (expired now v) eqn:Ev; cbn [negb].
    + unfold modify. rewrite Hs, pop_app_notin by exact Hnotin.
      cbn [Dict.pop]. rewrite String.eqb_refl.
      fold (Dict.keys suf).
      rewrite (IH pre); [now destruct s|reflexivity|exact Hnd'].
    + unfold ret. fold (Dict.keys suf).
      rewrite (IH (pre ++ [(k, v)])%list).
      * now rewrite <- app_assoc.
      * now rewrite <- app_assoc.
      * now rewrite <- app_assoc.
Qed.

(** X16.  On Python 2 the sweep keeps of [endpoint_fail] exactly the tallies
    that are not expired, in their order, and it does so however the rest of
    the sweep ends: an endpoint stays if and only if its last failure is not
    older than [CLEANUP_INTERVAL]; an endpoint that never failed goes. *)
Theorem python2_sweep_endpoints (now : Q)
        (self self' : MultiCauseCircuitBreaker) (r : result unit) :
  NoDup (Dict.keys (endpoint_fail self)) ->
  _cleanup Python2 now self = (self', r) ->
  endpoint_fail self'
  = filter (fun kv => negb (expired now (snd kv))) (endpoint_fail self).
Proof.
  intros Hnd. unfold _cleanup.
  pose proof (python2_endpoint_loop now (List.length (endpoint_fail self))
                (endpoint_fail self) [] self eq_refl Hnd) as L1.
  simpl app in L1.
  intros H. unfold bind at 1 in H. cbv beta in H. rewrite L1 in H.
  set (kept := filter (fun kv => negb (expired now (snd kv))) (endpoint_fail self)) in *.
  set (I := fun b : MultiCauseCircuitBreaker => endpoint_fail b = kept).
  revert H.
  match goal with
  | |- ?c ?s = _ -> _ => assert (Hk : keeps I c)
  end.
  { apply (keeps_bind I); [|intros _; apply (keeps_modify I); auto].
    intros s s' r'. apply (keeps_for_keys I). intros method.
    apply (keeps_bind I); [apply keeps_reading|]. intros t.
    apply (keeps_bind I).
    { apply (keeps_if I); [apply (keeps_modify I); auto | apply keeps_ret]. }
    intros _. apply (keeps_bind I); [apply keeps_reading|]. intros inst.
    apply (keeps_for_keys I). intros endpoint.
    apply (keeps_bind I); [apply keeps_reading|]. intros t'.
    apply (keeps_if I); [|apply keeps_ret].
    apply (keeps_bind I); [apply (keeps_on_instances_pop I); auto|]. intros _.
    apply (keeps_bind I); [apply keeps_reading|]. intros inst'.
    apply (keeps_if I); [apply (keeps_modify I); auto | apply keeps_ret]. }
  intros H. exact (Hk _ _ _ H eq_refl).
Qed.

Lemma python2_sweep_endpoints_witness :
  endpoint_fail (fst (_cleanup Python2 4000 two_tied)) = [].
Proof.
  assert (Hnd : NoDup (Dict.keys (endpoint_fail two_tied))).
  { vm_compute. repeat constructor; simpl; intuition discriminate. }
  rewrite (python2_sweep_endpoints 4000 two_tied _ _ Hnd (surjective_pairing _)).
  vm_compute. reflexivity.
Defined.


(** * Further properties of the liveness monitor *)

Lemma update_status_unseen (now : Q) (self : Connection) :
  (last_seen self == 0)%Q -> update_status now self = self.
Proof.
  intros H. unfold update_status. apply Qeq_bool_iff in H. now rewrite H.
Qed.

Lemma update_status_cases (now : Q) (self : Connection) :
  update_status now self = self
  \/ update_status now self = close self
  \/ exists s, s <> CLOSED /\ update_status now self = set_status now s self.
Proof.
  unfold update_status.
  destruct (negb (Qeq_bool (last_seen self) 0)); [|now left].
  destruct (_ && _); [right; now left|].
  destruct (Qge_bool _ _); [right; right; exists UNRESPONSIVE; split; [discriminate|reflexivity]|].
  destruct (_ && _); [right; now left|].
  destruct (Qge_bool _ _); right; right;
    [exists IDLE|exists RESPONSIVE]; split; try discriminate; reflexivity.
Qed.

(** X17.  Nothing but a received frame starts the status machine: on a
    connection whose peer was never seen ([last_seen] is 0), iterations of
    the status loop and sent frames, in any number and order, leave the
    status, [last_seen] and [last_status_change] as they are, and the
    transport is not asked to disconnect. *)
Theorem unseen_peer_stays (evs : list event) (self : Connection) :
  (last_seen self == 0)%Q ->
  forallb (fun ev => negb (is_recv ev) && negb (is_close ev)) evs = true ->
  status (run evs self) = status self
  /\ last_seen (run evs self) = last_seen self
  /\ last_status_change (run evs self) = last_status_change self
  /\ server_disconnects (run evs self) = server_disconnects self.
Proof.
  revert self. induction evs as [|ev evs IH]; intros self H0 Hevs; [auto|].
  simpl in Hevs. apply andb_prop in Hevs as [Hev Hevs].
  unfold run in *. simpl fold_left.
  assert (Hstep : last_seen (step self ev) = last_seen self
                  /\ status (step self ev) = status self
                  /\ last_status_change (step self ev) = last_status_change self
                  /\ server_disconnects (step self ev) = server_disconnects self).
  { destruct ev as [now|now msg|now msg|]; try discriminate; simpl.
    - destruct (negb (status_eqb (status self) CLOSED)); auto.
      rewrite update_status_unseen; auto.
    - unfold on_send. destruct (negb (is_idle_chatter msg)); auto. }
  destruct Hstep as (E1 & E2 & E3 & E4).
  destruct (IH (step self ev)) as (I1 & I2 & I3 & I4); auto.
  { now rewrite E1. }
  rewrite I1, I2, I3, I4. auto.
Qed.

Lemma unseen_peer_stays_witness :
  status (run [Tick 5; Send 6 (Message false); Tick 100] (Conn.init "peer" 0))
  = UNKNOWN.
Proof.
  assert (H0 : (last_seen (Conn.init "peer" 0) == 0)%Q) by reflexivity.
  assert (H1 : forallb (fun ev => negb (is_recv ev) && negb (is_close ev))
                       [Tick 5; Send 6 (Message false); Tick 100] = true)
    by reflexivity.
  exact (proj1 (unseen_peer_stays _ _ H0 H1)).
Defined.

Lemma step_disconnects (self : Connection) (ev : event) :
  endpoint (step self ev) = endpoint self
  /\ (status self = CLOSED ->
      status (step self ev) = CLOSED
      /\ server_disconnects (step self ev) = server_disconnects self)
  /\ (status self <> CLOSED ->
      (status (step self ev) = CLOSED
       /\ server_disconnects (step self ev) = endpoint self :: server_disconnects self)
      \/ (status (step self ev) <> CLOSED
          /\ server_disconnects (step self ev) = server_disconnects self)).
Proof.
  destruct (status_eqb (status self) CLOSED) eqn:E.
  - apply status_eqb_eq in E.
    assert (Hs : step self ev = self
                 \/ (status (step self ev) = CLOSED
                     /\ server_disconnects (step self ev) = server_disconnects self
                     /\ endpoint (step self ev) = endpoint self)).
    { destruct ev as [now|now msg|now msg|]; simpl.
      - rewrite E. now left.
      - right. unfold on_recv. destruct (negb (is_idle_chatter msg)); simpl; auto.
      - right. unfold on_send. destruct (negb (is_idle_chatter msg)); simpl; auto.
      - left. unfold close. now rewrite E. }
    destruct Hs as [->|(H1 & H2 & H3)]; splits; auto; intros; congruence.
  - assert (Hne : status self <> CLOSED).
    { intros H. rewrite H in E. discriminate. }
    split; [|split; [congruence|intros _]].
    + destruct ev as [now|now msg|now msg|]; simpl.
      * rewrite E. simpl.
        destruct (update_status_cases now self) as [->|[->|(s & Hs & ->)]]; auto.
        -- unfold close. now rewrite E.
        -- unfold set_status. now destruct (negb (status_eqb s (status self))).
      * unfold on_recv. now destruct (negb (is_idle_chatter msg)).
      * unfold on_send. now destruct (negb (is_idle_chatter msg)).
      * unfold close. now rewrite E.
    + destruct ev as [now|now msg|now msg|]; simpl.
      * rewrite E. simpl.
        destruct (update_status_cases now self) as [->|[->|(s & Hs & ->)]].
        -- now right.
        -- left. unfold close. rewrite E. now simpl.
        -- right. unfold set_status.
           destruct (negb (status_eqb s (status self))); simpl; auto.
      * right. unfold on_recv. destruct (negb (is_idle_chatter msg)); simpl; auto.
      * right. unfold on_send. destruct (negb (is_idle_chatter msg)); simpl; auto.
      * left. unfold close. rewrite E. now simpl.
Qed.

(** X18.  The transport is asked to disconnect once and CLOSED is final for
    the loop: starting from a connection that is not CLOSED, after any
    sequence of status-loop iterations, received frames, sent frames and
    calls of [close()], either the status is CLOSED and exactly one
    disconnect of the endpoint was added, or the status is not CLOSED and
    none was. *)
Theorem disconnect_once (evs : list event) (self : Connection) :
  status self <> CLOSED ->
  (status (run evs self) = CLOSED
   /\ server_disconnects (run evs self) = endpoint self :: server_disconnects self)
  \/ (status (run evs self) <> CLOSED
      /\ server_disconnects (run evs self) = server_disconnects self).
Proof.
  assert (Hclosed : forall evs c,
             status c = CLOSED ->
             status (run evs c) = CLOSED
             /\ server_disconnects (run evs c) = server_disconnects c).
  { clear. induction evs as [|ev evs IH]; intros c Hc; [auto|].
    unfold run in *. simpl.
    destruct (step_disconnects c ev) as (_ & H & _).
    destruct (H Hc) as (H1 & H2).
    destruct (IH _ H1) as (H3 & H4). rewrite H3, H4. auto. }
  revert self. induction evs as [|ev evs IH]; intros self Hne; [right; auto|].
  unfold run in *. simpl.
  destruct (step_disconnects self ev) as (He & _ & H).
  destruct (H Hne) as [(H1 & H2)|(H1 & H2)].
  - left. destruct (Hclosed evs _ H1) as (H3 & H4).
    unfold run in *. rewrite H3, H4. auto.
  - destruct (IH _ H1) as [(H3 & H4)|(H3 & H4)]; [left|right];
      (split; [exact H3|]); rewrite H4, ?He, ?H2; reflexivity.
Qed.

Lemma disconnect_once_witness :
  server_disconnects (run [Tick 7; Close; Recv 8 (Message false); Tick 9; Close]
                          silent_peer)
  = ["peer"].
Proof.
  assert (Hne : status silent_peer <> CLOSED) by discriminate.
  destruct (disconnect_once [Tick 7; Close; Recv 8 (Message false); Tick 9; Close]
                            silent_peer Hne) as [(_ & H)|(H & _)].
  - exact H.
  - exfalso. apply H. reflexivity.
Defined.

(** X19.  The counters count frames: after any sequence of events,
    [received_message_count] has grown by the number of received frames and
    [sent_message_count] by the number of sent frames, idle chatter
    included, whatever the status. *)
Theorem counters_count_frames (evs : list event) (self : Connection) :
  received_message_count (run evs self)
  = received_message_count self + Z.of_nat (List.length (filter is_recv evs))
  /\ sent_message_count (run evs self)
     = sent_message_count self + Z.of_nat (List.length (filter is_send evs)).
Proof.
  revert self. induction evs as [|ev evs IH]; intros self.
  - simpl. lia.
  - unfold run in *. simpl fold_left. destruct (IH (step self ev)) as (I1 & I2).
    rewrite I1, I2.
    assert (Hstep :
              received_message_count (step self ev)
              = received_message_count self + (if is_recv ev then 1 else 0)
              /\ sent_message_count (step self ev)
                 = sent_message_count self + (if is_send ev then 1 else 0)).
    { destruct ev as [now|now msg|now msg|]; simpl.
      - destruct (negb (status_eqb (status self) CLOSED)); [|lia].
        destruct (update_status_cases now self) as [->|[->|(s & _ & ->)]];
          [lia| |].
        + unfold close. destruct (status_eqb (status self) CLOSED); simpl; lia.
        + unfold set_status. destruct (negb (status_eqb s (status self)));
            simpl; lia.
      - unfold on_recv. destruct (negb (is_idle_chatter msg)); simpl; lia.
      - unfold on_send. destruct (negb (is_idle_chatter msg)); simpl; lia.
      - unfold close. destruct (status_eqb (status self) CLOSED); simpl; lia. }
    destruct Hstep as (-> & ->).
    simpl filter. destruct ev; simpl; lia.
Qed.

Lemma Qeq_bool_false (a : Q) : ~ (a == 0)%Q -> Qeq_bool a 0 = false.
Proof.
  intros H. destruct (Qeq_bool a 0) eqn:E; [|reflexivity].
  apply Qeq_bool_iff in E. contradiction.
Qed.


Lemma Qge_bool_true (a b : Q) : (b <= a)%Q -> Qge_bool a b = true.
Proof. intros H. now apply Qge_bool_iff. Qed.



(** X21.  Silence ends in a disconnect.  On a connection that is neither
    CLOSED nor UNRESPONSIVE and whose peer was seen: an iteration of the
    status loop at [now1], [timeout] or more after the peer was last seen,
    makes it UNRESPONSIVE and stamps [last_status_change] with [now1]; with
    no frame received since, an iteration at [now2],
    [unresponsive_disconnect] or more after [now1], closes it and asks the
    transport to disconnect the endpoint. *)
Theorem silence_disconnects (now1 now2 : Q) (self : Connection) :
  ~ (last_seen self == 0)%Q ->
  status self <> CLOSED ->
  status self <> UNRESPONSIVE ->
  (timeout self <= now1 - last_seen self)%Q ->
  (unresponsive_disconnect self <= now2 - now1)%Q ->
  status (run [Tick now1] self) = UNRESPONSIVE
  /\ last_status_change (run [Tick now1] self) = now1
  /\ status (run [Tick now1; Tick now2] self) = CLOSED
  /\ server_disconnects (run [Tick now1; Tick now2] self)
     = endpoint self :: server_disconnects self.
Proof.
  intros Hseen Hc Hu Hsilent Hdead.
  apply Qeq_bool_false in Hseen. apply Qge_bool_true in Hsilent, Hdead.
  destruct self as [sd ep to hb it ud idd ls lm ca hc st lsc rc sc].
  simpl in *. unfold run, step, live_check_loop, update_status, set_status, close;
    simpl.
  destruct st; try congruence; simpl; rewrite ?Hseen, ?Hsilent; simpl;
    rewrite ?Hseen, ?Hdead; simpl; auto.
Qed.

Lemma silence_disconnects_witness :
  status (run [Tick 7; Tick 37] silent_peer) = CLOSED.
Proof.
  assert (H1 : ~ (last_seen silent_peer == 0)%Q) by (vm_compute; discriminate).
  assert (H2 : status silent_peer <> CLOSED) by discriminate.
  assert (H3 : status silent_peer <> UNRESPONSIVE) by discriminate.
  assert (H4 : (timeout silent_peer <= 7 - last_seen silent_peer)%Q)
    by (vm_compute; discriminate).
  assert (H5 : (unresponsive_disconnect silent_peer <= 37 - 7)%Q)
    by (vm_compute; discriminate).
  exact (proj1 (proj2 (proj2 (silence_disconnects 7 37 silent_peer H1 H2 H3 H4 H5)))).
Defined.



(** The status loop composes: running it over the clock readings
    [a] and then over [b] is running it over [a ++ b], and it is the event
    sequence of its iterations; once an iteration has closed the connection
    the remaining readings change nothing. *)
Lemma live_check_loop_app (a b : list Q) (self : Connection) :
  live_check_loop (a ++ b)%list self = live_check_loop b (live_check_loop a self)
  /\ live_check_loop a self = run (map Tick a) self
  /\ (status (live_check_loop a self) = CLOSED ->
      live_check_loop (a ++ b)%list self = live_check_loop a self).
Proof.
  assert (Hclosed : forall l c, status c = CLOSED -> live_check_loop l c = c).
  { intros [|x l] c Hc; simpl; [reflexivity|]. now rewrite Hc. }
  assert (Happ : forall a c,
             live_check_loop (a ++ b)%list c
             = live_check_loop b (live_check_loop a c)).
  { clear self a. induction a as [|x a IH]; intros c; simpl; [reflexivity|].
    destruct (status_eqb (status c) CLOSED) eqn:E; simpl; [|apply IH].
    apply status_eqb_eq in E. now rewrite Hclosed. }
  splits.
  - apply Happ.
  - revert self. induction a as [|x a IH]; intros c; simpl; [reflexivity|].
    unfold run in *. simpl.
    destruct (status_eqb (status c) CLOSED) eqn:E; simpl; [|apply IH].
    apply status_eqb_eq in E. rewrite <- IH. now rewrite Hclosed.
  - intros Hc. rewrite Happ. now apply Hclosed.
Qed.


(** * Further properties of the circuit breaker, continued *)

(** X23.  Registering under a method that [method_fail] does not know starts
    the method afresh: [method_instance_fail[method]] is replaced by a dict
    that holds the new endpoint only, so instance tallies that a sweep had
    left under that method, and their endpoints as candidates, are gone. *)
Theorem add_method_unknown_method (endpoint method : string)
        (self : MultiCauseCircuitBreaker) :
  Dict.get method (method_fail self) = None ->
  exists self',
    add_method endpoint method self = (self', Ok tt)
    /\ Dict.get method (method_fail self') = Some fresh
    /\ Dict.get method (method_instance_fail self') = Some [(endpoint, fresh)]
    /\ (forall k, k <> endpoint -> instance_tally method k self' = None).
Proof.
  intros Hm. rewrite add_method_unfold. cbv zeta.
  set (s1 := if Dict.contains endpoint (endpoint_fail self) then self else _).
  assert (E1 : method_fail s1 = method_fail self).
  { subst s1. now destruct (Dict.contains endpoint (endpoint_fail self)). }
  assert (E2 : Dict.contains method (method_fail s1) = false).
  { unfold Dict.contains. now rewrite E1, Hm. }
  rewrite E2.
  cbn [method_instance_fail with_method_instance_fail]. rewrite get_set_same.
  cbn [Dict.contains Dict.get]. eexists. split; [reflexivity|].
  cbn [method_fail method_instance_fail with_method_instance_fail with_method_fail].
  rewrite set_set, !get_set_same. splits; auto.
  intros k Hk. unfold instance_tally.
  cbn [method_instance_fail with_method_instance_fail]. rewrite get_set_same.
  cbn [Dict.set Dict.get]. now destruct (String.eqb_spec k endpoint).
Qed.

Lemma add_method_unknown_method_witness :
  exists self',
    add_method "B" "b" (one_pair 0 "A" "a" [1%Q]) = (self', Ok tt)
    /\ Dict.get "b" (method_instance_fail self') = Some [("B", fresh)].
Proof.
  assert (H : Dict.get "b" (method_fail (one_pair 0 "A" "a" [1%Q])) = None)
    by (vm_compute; reflexivity).
  destruct (add_method_unknown_method "B" "b" _ H) as (self' & H1 & _ & H2 & _).
  exists self'. split; [exact H1 | exact H2].
Defined.

Lemma last_default {A : Type} (l : list A) (d d' : A) :
  l <> [] -> last l d = last l d'.
Proof.
  induction l as [|a [|b l] IH]; intros H; [congruence|reflexivity|].
  change (last (b :: l) d = last (b :: l) d'). apply IH. discriminate.
Qed.

Lemma observe_failures_global (endpoint method : string) (times : list Q) :
  forall self,
    registered endpoint method self = true ->
    exists self',
      observe_failures times endpoint method self = (self', Ok tt)
      /\ registered endpoint method self' = true
      /\ last_cleanup self' = last_cleanup self
      /\ count (global_fail self')
         = count (global_fail self) + Z.of_nat (List.length times)
      /\ last_time (global_fail self')
         = last (map Some times) (last_time (global_fail self)).
Proof.
  induction times as [|t times IH]; intros self Hreg.
  - exists self. simpl. splits; auto. lia.
  - destruct (registered_inv _ _ _ Hreg) as (se & sm & inst & si & He & Hm & Hi & Hie).
    pose proof (observe_failure_closed t _ _ _ _ _ _ _ He Hm Hi Hie) as Hf.
    set (s1 := on_pair _ endpoint method se sm si inst self) in Hf.
    assert (Hreg1 : registered endpoint method s1 = true).
    { unfold registered, instance_tally, Dict.contains, s1, on_pair; simpl.
      now rewrite !get_set_same. }
    destruct (IH s1 Hreg1) as (self' & H1 & H2 & H3 & H4 & H5).
    exists self'. cbn [observe_failures]. rewrite (bind_ok _ _ _ _ _ Hf).
    splits; auto.
    + rewrite H4. unfold s1, on_pair. cbn [global_fail count List.length]. lia.
    + rewrite H5. unfold s1, on_pair. cbn [global_fail last_time map].
      destruct times as [|q times]; [reflexivity|].
      cbn [map].
      change (last (Some q :: map Some times) (Some t)
              = last (Some q :: map Some times) (last_time (global_fail self))).
      apply last_default. discriminate.
Qed.

Lemma select_endpoint_global_tripped (py : interpreter) (now : Q) (rnd : nat)
      (method : string) (endpoints : option (list string))
      (self : MultiCauseCircuitBreaker) (g : Z) :
  sweep_due now self = false ->
  effective py now (global_fail self) = Ok g ->
  MAXIMUM_ERRORS_BEFORE_OPEN < g ->
  select_endpoint py now rnd method endpoints self
  = (self, Raise (CircuitBreakerOpen "global failure rate too high")).
Proof.
  intros Hs Hg Hlt. rewrite select_endpoint_no_sweep by exact Hs.
  unfold effective in Hg. unfold choose_endpoint. cbv zeta. rewrite Hg. cbn [rbind].
  apply Z.gtb_lt in Hlt. now rewrite Hlt.
Qed.

(** X24.  Failures anywhere open the breaker everywhere.  On any breaker
    whose global count is not negative, after more than
    [MAXIMUM_ERRORS_BEFORE_OPEN] failures of one registered pair, the last
    within the cooldown, and with no sweep due, [select_endpoint] raises the
    global [CircuitBreakerOpen] for every method and every candidate list,
    also for methods and endpoints that never failed. *)
Theorem failures_open_globally (py : interpreter) (now : Q) (rnd : nat)
        (endpoint method : string) (times : list Q) (last : Q)
        (self : MultiCauseCircuitBreaker)
        (asked : string) (candidates : option (list string)) :
  registered endpoint method self = true ->
  0 <= count (global_fail self) ->
  MAXIMUM_ERRORS_BEFORE_OPEN < Z.of_nat (List.length (times ++ [last])%list) ->
  (now - COOLDOWN_SECONDS < last)%Q ->
  sweep_due now self = false ->
  exists self',
    observe_failures (times ++ [last])%list endpoint method self = (self', Ok tt)
    /\ select_endpoint py now rnd asked candidates self'
       = (self', Raise (CircuitBreakerOpen "global failure rate too high")).
Proof.
  intros Hreg Hc Hk Hrecent Hdue.
  destruct (observe_failures_global endpoint method (times ++ [last])%list self Hreg)
    as (self' & H1 & _ & H3 & H4 & H5).
  exists self'. split; [exact H1|].
  rewrite map_app in H5. simpl map in H5. rewrite last_last in H5.
  assert (Hs : sweep_due now self' = false).
  { unfold sweep_due in *. now rewrite H3. }
  assert (Hg : effective py now (global_fail self') = Ok (count (global_fail self'))).
  { unfold effective, apply_ignore_before. rewrite H5.
    now rewrite Qle_bool_false. }
  apply (select_endpoint_global_tripped py now rnd asked candidates self' _ Hs Hg).
  rewrite H4. rewrite length_app in *. simpl in *. lia.
Qed.

Lemma failures_open_globally_witness :
  exists self',
    observe_failures (repeat 1%Q 7 ++ [1%Q])%list "A" "a" two_tied = (self', Ok tt)
    /\ select_endpoint Python3 2 0 "never seen" None self'
       = (self', Raise (CircuitBreakerOpen "global failure rate too high")).
Proof.
  assert (H1 : registered "A" "a" two_tied = true) by (vm_compute; reflexivity).
  assert (H2 : 0 <= count (global_fail two_tied)) by (vm_compute; discriminate).
  assert (H3 : MAXIMUM_ERRORS_BEFORE_OPEN
               < Z.of_nat (List.length (repeat 1%Q 7 ++ [1%Q])%list))
    by (vm_compute; reflexivity).
  assert (H4 : (2 - COOLDOWN_SECONDS < 1)%Q) by (vm_compute; reflexivity).
  assert (H5 : sweep_due 2 two_tied = false) by (vm_compute; reflexivity).
  exact (failures_open_globally Python3 2 0 "A" "a" (repeat 1%Q 7) 1 two_tied
           "never seen" None H1 H2 H3 H4 H5).
Defined.

Lemma keys_set_incl {V : Type} (k x : string) (v : V) (d : Dict.t V) :
  In x (Dict.keys (Dict.set k v d)) -> x = k \/ In x (Dict.keys d).
Proof.
  unfold Dict.keys. induction d as [|[k' v'] d IH]; simpl.
  - intros [H|[]]. now left.
  - destruct (String.eqb k k'); simpl; intros [H|H]; auto.
    destruct (IH H); auto.
Qed.

Lemma dict_comprehension_keys (value : string -> result Z) :
  forall l acc d,
    dict_comprehension value l acc = Ok d ->
    forall k, In k (Dict.keys d) -> In k (Dict.keys acc) \/ In k l.
Proof.
  induction l as [|x l IH]; intros acc d H k Hk; simpl in H.
  - injection H as <-. now left.
  - destruct (value x) as [v|] eqn:E; cbn [rbind] in H; [|discriminate].
    destruct (IH _ _ H k Hk) as [Hin|Hin]; [|right; now right].
    apply keys_set_incl in Hin as [->|Hin]; [right; now left|now left].
Qed.

Lemma select_endpoint_keeps_adjuster (py : interpreter) (now : Q) (rnd : nat)
      (method : string) (endpoints : option (list string))
      (self self' : MultiCauseCircuitBreaker) (r : result string) :
  select_endpoint py now rnd method endpoints self = (self', r) ->
  adjust_endpoint_rating self' = adjust_endpoint_rating self.
Proof.
  unfold select_endpoint, bind, reading, ret.
  destruct (Qlt_bool (last_cleanup self) (now - CLEANUP_INTERVAL)).
  - destruct (_cleanup py now self) as [s1 [[]|ex]] eqn:Hc; intros [= <- <-];
      eauto using cleanup_keeps_adjuster.
  - now intros [= <- <-].
Qed.

(** X25.  Only registered endpoints are returned: an endpoint that
    [select_endpoint(method, candidates)] returns is registered for the
    method on the breaker the call leaves, whatever the adjuster does; and
    with the default adjuster it is one of the candidates when candidates
    were given, and one of the endpoints registered under the method when
    none (or an empty list) was. *)
Theorem select_endpoint_returns_registered (py : interpreter) (now : Q) (rnd : nat)
        (method : string) (endpoints : option (list string))
        (self self' : MultiCauseCircuitBreaker) (e : string) :
  select_endpoint py now rnd method endpoints self = (self', Ok e) ->
  registered e method self' = true
  /\ (adjust_endpoint_rating self = _adjust_endpoint_rating ->
      match endpoints with
      | Some (c :: cs) => In e (c :: cs)
      | _ => exists inst, Dict.get method (method_instance_fail self') = Some inst
                          /\ In e (Dict.keys inst)
      end).
Proof.
  intros H. pose proof (select_endpoint_keeps_adjuster _ _ _ _ _ _ _ _ H) as Hadj.
  apply select_endpoint_inv in H as [(ex & [=] & _)|H].
  symmetry in H. pose proof H as H0.
  apply choose_endpoint_ok_inv in H0
    as (ratings & se & inst & si & ce & ci & Hr & Hne & Hc & He & _ & _ & Hi & Hie & _).
  split.
  - unfold choose_endpoint in H. cbv zeta in H. rstep H. rstep H. rstep H.
    unfold registered, instance_tally, Dict.contains in *.
    rewrite He, Hi, Hie.
    destruct (Dict.get method (method_fail self')); [reflexivity|discriminate].
  - intros Had. rewrite <- Hadj in Had.
    assert (Hin : In e (Dict.keys ratings)).
    { apply random_choice_in in Hc. unfold shortlist in Hc. cbv zeta in Hc.
      eapply Permutation_in; [symmetry; apply sorted_perm|].
      match type of Hc with
      | In e (firstn ?n ?l) => rewrite <- (firstn_skipn n l)
      end.
      apply in_or_app. now left. }
    unfold rate_endpoints in Hr. rewrite Had in Hr. unfold _adjust_endpoint_rating in Hr.
    destruct endpoints as [[|c cs]|]; cbn [rbind] in Hr.
    + unfold Dict.getitem in Hr. rewrite Hi in Hr. cbn [rbind] in Hr.
      rstep Hr. injection Hr as <-. exists inst. split; [exact Hi|].
      destruct (dict_comprehension_keys _ _ _ _ E e Hin) as [[]|]; assumption.
    + rstep Hr. injection Hr as <-.
      destruct (dict_comprehension_keys _ _ _ _ E e Hin) as [[]|]; assumption.
    + unfold Dict.getitem in Hr. rewrite Hi in Hr. cbn [rbind] in Hr.
      rstep Hr. injection Hr as <-. exists inst. split; [exact Hi|].
      destruct (dict_comprehension_keys _ _ _ _ E e Hin) as [[]|]; assumption.
Qed.

Lemma select_endpoint_returns_registered_witness :
  registered "B" "a" two_tied = true.
Proof.
  assert (H : select_endpoint Python3 100 0 "a" None two_tied = (two_tied, Ok "B"))
    by (vm_compute; reflexivity).
  exact (proj1 (select_endpoint_returns_registered Python3 100 0 "a" None
                  two_tied two_tied "B" H)).
Defined.
